(** * ADSL DirectiveProcessor: a shallow embedding of
      [ADSL/src/DirectiveProcessor.cpp] and the properties of its
      ingest, callback, dispatch and cancellation paths.

    Every member function is embedded as an action run while [m_mutex]
    is held.  A router call made between [lock.unlock()] and
    [lock.lock()] is an action whose outcome (return value and the
    processor state found when the lock is taken again) is supplied by
    the router of the section.  Calls of [notify_one] on
    [m_wakeProcessingLoop] and calls into the router are recorded as
    events, in program order.  Logging macros have no effect on the
    processor and are left out. *)

From stdpp Require Import base option list strings gmap relations.

Local Open Scope string_scope.
Local Open Scope list_scope.

(** ** Data *)

(** Modelled from the spec: [AVSDirective] (declared in a header that is
    not part of the sources).  The processor reads only the message id
    and the dialog request id of a directive. *)
Record AVSDirective := {
  getMessageId : string;
  getDialogRequestId : string
}.

(** A non-null [std::shared_ptr<AVSDirective>]: the address it holds and
    the object found there.  A possibly null pointer is an
    [option Directive].  The queues are only ever given non-null
    pointers, so they are lists of [Directive]. *)
Record Directive := {
  address : N;
  pointee : AVSDirective
}.

Definition messageId (d : Directive) : string := getMessageId (pointee d).
Definition dialogRequestId (d : Directive) : string := getDialogRequestId (pointee d).

(** [a == b] on shared pointers compares the stored addresses. *)
Definition same_pointer (a b : Directive) : bool :=
  bool_decide (address a = address b).

(** Modelled from the spec: [BlockingPolicy] (declared in a header that is
    not part of the sources), one of None, NonBlocking, Blocking. *)
Inductive BlockingPolicy := NONE | NON_BLOCKING | BLOCKING.

Global Instance BlockingPolicy_eq_dec : EqDecision BlockingPolicy.
Proof. solve_decision. Defined.

(** [DirectiveProcessor::ProcessorHandle], an integer. *)
Definition ProcessorHandle := N.

(** [DirectiveProcessor::DirectiveHandlerResult]: the two members set by
    its constructor. *)
Record DirectiveHandlerResult := {
  m_processorHandle : ProcessorHandle;
  m_messageId : string
}.

Definition new_DirectiveHandlerResult
    (processorHandle : ProcessorHandle) (directive : Directive) : DirectiveHandlerResult :=
  {| m_processorHandle := processorHandle; m_messageId := messageId directive |}.

(** The data members of a [DirectiveProcessor] guarded by [m_mutex],
    and [m_handle]. *)
Record Processor := {
  m_handle : ProcessorHandle;
  m_dialogRequestId : string;
  m_directiveBeingPreHandled : option Directive;
  m_handlingQueue : list Directive;
  m_cancelingQueue : list Directive;
  m_isHandlingDirective : bool;
  m_isShuttingDown : bool
}.

Definition with_dialogRequestId (v : string) (p : Processor) : Processor :=
  {| m_handle := m_handle p; m_dialogRequestId := v;
     m_directiveBeingPreHandled := m_directiveBeingPreHandled p;
     m_handlingQueue := m_handlingQueue p; m_cancelingQueue := m_cancelingQueue p;
     m_isHandlingDirective := m_isHandlingDirective p;
     m_isShuttingDown := m_isShuttingDown p |}.

Definition with_directiveBeingPreHandled (v : option Directive) (p : Processor) : Processor :=
  {| m_handle := m_handle p; m_dialogRequestId := m_dialogRequestId p;
     m_directiveBeingPreHandled := v;
     m_handlingQueue := m_handlingQueue p; m_cancelingQueue := m_cancelingQueue p;
     m_isHandlingDirective := m_isHandlingDirective p;
     m_isShuttingDown := m_isShuttingDown p |}.

Definition with_handlingQueue (v : list Directive) (p : Processor) : Processor :=
  {| m_handle := m_handle p; m_dialogRequestId := m_dialogRequestId p;
     m_directiveBeingPreHandled := m_directiveBeingPreHandled p;
     m_handlingQueue := v; m_cancelingQueue := m_cancelingQueue p;
     m_isHandlingDirective := m_isHandlingDirective p;
     m_isShuttingDown := m_isShuttingDown p |}.

Definition with_cancelingQueue (v : list Directive) (p : Processor) : Processor :=
  {| m_handle := m_handle p; m_dialogRequestId := m_dialogRequestId p;
     m_directiveBeingPreHandled := m_directiveBeingPreHandled p;
     m_handlingQueue := m_handlingQueue p; m_cancelingQueue := v;
     m_isHandlingDirective := m_isHandlingDirective p;
     m_isShuttingDown := m_isShuttingDown p |}.

Definition with_isHandlingDirective (v : bool) (p : Processor) : Processor :=
  {| m_handle := m_handle p; m_dialogRequestId := m_dialogRequestId p;
     m_directiveBeingPreHandled := m_directiveBeingPreHandled p;
     m_handlingQueue := m_handlingQueue p; m_cancelingQueue := m_cancelingQueue p;
     m_isHandlingDirective := v;
     m_isShuttingDown := m_isShuttingDown p |}.

Definition with_isShuttingDown (v : bool) (p : Processor) : Processor :=
  {| m_handle := m_handle p; m_dialogRequestId := m_dialogRequestId p;
     m_directiveBeingPreHandled := m_directiveBeingPreHandled p;
     m_handlingQueue := m_handlingQueue p; m_cancelingQueue := m_cancelingQueue p;
     m_isHandlingDirective := m_isHandlingDirective p;
     m_isShuttingDown := v |}.

(** The two deques a helper can be handed by reference. *)
Inductive QueueRef := HandlingQueue | CancelingQueue.

Definition deref (q : QueueRef) (p : Processor) : list Directive :=
  match q with
  | HandlingQueue => m_handlingQueue p
  | CancelingQueue => m_cancelingQueue p
  end.

Definition assign (q : QueueRef) (v : list Directive) (p : Processor) : Processor :=
  match q with
  | HandlingQueue => with_handlingQueue v p
  | CancelingQueue => with_cancelingQueue v p
  end.

(** ** Effects *)

Inductive Event :=
  | notify_one                       (* m_wakeProcessingLoop.notify_one() *)
  | call_preHandleDirective (directive : Directive) (result : DirectiveHandlerResult)
  | call_handleDirective (directive : Directive)
  | call_cancelDirective (directive : Directive).

(** An action on the processor: its return value, the processor it
    leaves and the events it emitted. *)
Definition Locked (A : Type) : Type := Processor → A * Processor * list Event.

Global Instance Locked_ret : MRet Locked := λ A (a : A) p, (a, p, []).
Global Instance Locked_bind : MBind Locked := λ A B (f : A → Locked B) (m : Locked A) p,
  let '(a, p1, e1) := m p in
  let '(b, p2, e2) := f a p1 in
  (b, p2, e1 ++ e2).

Definition get : Locked Processor := λ p, (p, p, []).
Definition modify (f : Processor → Processor) : Locked unit := λ p, (tt, f p, []).
Definition emit (e : Event) : Locked unit := λ p, (tt, p, [e]).
Definition when (b : bool) (m : Locked unit) : Locked unit := if b then m else mret tt.

Definition result {A} (m : Locked A) (p : Processor) : A := (m p).1.1.
Definition state_after {A} (m : Locked A) (p : Processor) : Processor := (m p).1.2.
Definition events {A} (m : Locked A) (p : Processor) : list Event := (m p).2.

(** The router, as seen by the processor.  Each call is made with
    [m_mutex] released; besides what the call returns, the router fixes
    the processor state that is found when the lock is taken again
    (other threads, and the handlers themselves through their result
    objects, may have run in between).  [handleDirective] may or may not
    write through its policy pointer. *)
Record DirectiveRouter := {
  preHandleDirective : Directive → DirectiveHandlerResult → Processor → bool * Processor;
  handleDirective : Directive → Processor → bool * option BlockingPolicy * Processor;
  cancelDirective : Directive → Processor → Processor
}.

(** ** DirectiveProcessor *)

(** [queueAllDirectivesForCancellationLocked] *)
Definition queueAllDirectivesForCancellationLocked : Locked unit :=
  modify (with_dialogRequestId "");;
  p ← get;
  match m_directiveBeingPreHandled p with
  | Some directive =>
      modify (with_handlingQueue (m_handlingQueue p ++ [directive]));;
      modify (with_directiveBeingPreHandled None)
  | None => mret tt
  end;;
  p ← get;
  when (negb (bool_decide (m_handlingQueue p = [])))
    (modify (with_cancelingQueue (m_cancelingQueue p ++ m_handlingQueue p));;
     modify (with_handlingQueue []);;
     emit notify_one);;
  modify (with_isHandlingDirective false).

(** [setDialogRequestId] *)
Definition setDialogRequestId (dialogRequestId : string) : Locked unit :=
  p ← get;
  if bool_decide (dialogRequestId = m_dialogRequestId p) then mret tt
  else
    queueAllDirectivesForCancellationLocked;;
    modify (with_dialogRequestId dialogRequestId).

(** [findDirectiveInQueueLocked]: the iterator [std::find_if] returns, as
    the position of the first element whose message id matches, or
    [None] for [queue.end()]. *)
Definition findDirectiveInQueueLocked (id : string) (queue : list Directive) : option nat :=
  fst <$> list_find (λ element, messageId element = id) queue.

(** [removeDirectiveFromQueueLocked], for an iterator that is not
    [queue.end()]. *)
Definition removeDirectiveFromQueueLocked (it : nat) (queue : QueueRef) : Locked unit :=
  p ← get;
  modify (assign queue (delete it (deref queue p)));;
  p ← get;
  when (negb (bool_decide (deref queue p = []))) (emit notify_one).

(** [removeFromHandlingQueueLocked]; [begin() == it] is [it = 0]. *)
Definition removeFromHandlingQueueLocked (id : string) : Locked bool :=
  p ← get;
  match findDirectiveInQueueLocked id (m_handlingQueue p) with
  | None => mret false
  | Some it =>
      when (m_isHandlingDirective p && bool_decide (it = 0%nat))
        (modify (with_isHandlingDirective false));;
      removeDirectiveFromQueueLocked it HandlingQueue;;
      mret true
  end.

(** [removeFromCancelingQueueLocked] *)
Definition removeFromCancelingQueueLocked (id : string) : Locked bool :=
  p ← get;
  match findDirectiveInQueueLocked id (m_cancelingQueue p) with
  | None => mret false
  | Some it =>
      removeDirectiveFromQueueLocked it CancelingQueue;;
      mret true
  end.

(** [m_directiveBeingPreHandled && m_directiveBeingPreHandled->getMessageId() == messageId] *)
Definition isBeingPreHandled (id : string) (p : Processor) : bool :=
  match m_directiveBeingPreHandled p with
  | Some directive => bool_decide (messageId directive = id)
  | None => false
  end.

(** [onHandlingCompleted] *)
Definition onHandlingCompleted (id : string) : Locked unit :=
  p ← get;
  if isBeingPreHandled id p then
    modify (with_directiveBeingPreHandled None)
  else
    (removed ← removeFromHandlingQueueLocked id;
     if negb removed then (removeFromCancelingQueueLocked id;; mret tt)
     else mret tt).

(** [onHandlingFailed]; the description is only logged. *)
Definition onHandlingFailed (id : string) (description : string) : Locked unit :=
  p ← get;
  if isBeingPreHandled id p then
    (modify (with_directiveBeingPreHandled None);;
     queueAllDirectivesForCancellationLocked)
  else
    (removed ← removeFromHandlingQueueLocked id;
     if (removed : bool) then queueAllDirectivesForCancellationLocked
     else (removeFromCancelingQueueLocked id;; mret tt)).

(** The part of [shutdown] that runs under [m_mutex]. *)
Definition shutdown_locked : Locked unit :=
  queueAllDirectivesForCancellationLocked;;
  modify (with_isShuttingDown true);;
  emit notify_one.

(** What [handleDirectiveLocked] does once [lock.lock()] has returned
    after the router call. *)
Definition handleDirectiveLocked_return
    (directive : Directive) (handled : bool) (policy : BlockingPolicy) : Locked bool :=
  when (negb handled || negb (bool_decide (BLOCKING = policy)))
    (modify (with_isHandlingDirective false);;
     p ← get;
     match m_handlingQueue p with
     | front :: rest =>
         when (same_pointer front directive) (modify (with_handlingQueue rest))
     | [] => mret tt
     end);;
  when (negb handled) queueAllDirectivesForCancellationLocked;;
  mret true.

Section WithRouter.

Variable m_directiveRouter : DirectiveRouter.

(** [lock.unlock(); m_directiveRouter->...; lock.lock()] *)
Definition unlocked_preHandleDirective
    (directive : Directive) (res : DirectiveHandlerResult) : Locked bool :=
  λ p, let '(handled, p') := preHandleDirective m_directiveRouter directive res p in
       (handled, p', [call_preHandleDirective directive res]).

Definition unlocked_handleDirective (directive : Directive) : Locked (bool * BlockingPolicy) :=
  λ p, let '(handled, written, p') := handleDirective m_directiveRouter directive p in
       ((handled, default NONE written), p', [call_handleDirective directive]).

Definition unlocked_cancelDirective (directive : Directive) : Locked unit :=
  λ p, (tt, cancelDirective m_directiveRouter directive p, [call_cancelDirective directive]).

(** What [onDirective] does once [lock.lock()] has returned after the
    router call. *)
Definition onDirective_return (directive : Directive) (handled : bool) : Locked bool :=
  p ← get;
  when (bool_decide (is_Some (m_directiveBeingPreHandled p)))
    (modify (with_directiveBeingPreHandled None);;
     when handled
       (p ← get;
        modify (with_handlingQueue (m_handlingQueue p ++ [directive]));;
        emit notify_one));;
  mret handled.

(** [onDirective]; [m_onDirectiveMutex] is held from after the null
    test to the end. *)
Definition onDirective (directive : option Directive) : Locked bool :=
  match directive with
  | None => mret false
  | Some directive =>
      p ← get;
      if m_isShuttingDown p then mret false
      else if negb (bool_decide (dialogRequestId directive = m_dialogRequestId p)) then mret true
      else
        modify (with_directiveBeingPreHandled (Some directive));;
        handled ← unlocked_preHandleDirective directive
                    (new_DirectiveHandlerResult (m_handle p) directive);
        onDirective_return directive handled
  end.

Fixpoint for_each (f : Directive → Locked unit) (l : list Directive) : Locked unit :=
  match l with
  | [] => mret tt
  | directive :: rest => f directive;; for_each f rest
  end.

(** [processCancelingQueueLocked]; the moved-from deque is empty. *)
Definition processCancelingQueueLocked : Locked bool :=
  p ← get;
  if bool_decide (m_cancelingQueue p = []) then mret false
  else
    let temp := m_cancelingQueue p in
    modify (with_cancelingQueue []);;
    for_each unlocked_cancelDirective temp;;
    mret true.

(** [handleDirectiveLocked] *)
Definition handleDirectiveLocked : Locked bool :=
  p ← get;
  match m_handlingQueue p with
  | [] => mret false
  | directive :: _ =>
      if m_isHandlingDirective p then mret true
      else
        modify (with_isHandlingDirective true);;
        '(handled, policy) ← unlocked_handleDirective directive;
        handleDirectiveLocked_return directive handled policy
  end.

(** The predicate [wake] of [processingLoop]. *)
Definition wake (p : Processor) : bool :=
  negb (bool_decide (m_cancelingQueue p = []))
  || (negb (bool_decide (m_handlingQueue p = [])) && negb (m_isHandlingDirective p))
  || m_isShuttingDown p.

(** One pass of the [while (true)] of [processingLoop], from the return
    of [wait]; the result tells whether the loop is left. *)
Definition processingLoop_pass : Locked bool :=
  canceled ← processCancelingQueueLocked;
  if (canceled : bool) then mret false
  else
    handling ← handleDirectiveLocked;
    if (handling : bool) then mret false
    else p ← get; mret (m_isShuttingDown p).

End WithRouter.

(** ** The handle map *)

(** The static [m_handleMap], from handles to processor addresses, and
    the processor objects that are alive, by address. *)
Record World := {
  m_handleMap : gmap ProcessorHandle N;
  objects : gmap N Processor
}.

(** Runs a member function on the processor at address [this];
    [None] when no live processor is there. *)
Definition call_on (this : N) (m : Locked unit) (w : World) : option (World * list Event) :=
  p ← objects w !! this;
  let '(_, p', e) := m p in
  Some ({| m_handleMap := m_handleMap w; objects := <[this := p']> (objects w) |}, e).

(** [DirectiveHandlerResult::setCompleted] *)
Definition setCompleted (res : DirectiveHandlerResult) (w : World) : option (World * list Event) :=
  match m_handleMap w !! m_processorHandle res with
  | None => Some (w, [])
  | Some it => call_on it (onHandlingCompleted (m_messageId res)) w
  end.

(** [DirectiveHandlerResult::setFailed] *)
Definition setFailed (res : DirectiveHandlerResult) (description : string) (w : World)
    : option (World * list Event) :=
  match m_handleMap w !! m_processorHandle res with
  | None => Some (w, [])
  | Some it => call_on it (onHandlingFailed (m_messageId res) description) w
  end.

(** The two critical sections of [shutdown], that of the handle map and
    that of [m_mutex] (lines 112 to 121).  The join of the processing
    thread that follows them is in [shutdown_joined]. *)
Definition shutdown (this : N) (w : World) : option (World * list Event) :=
  p ← objects w !! this;
  call_on this shutdown_locked
    {| m_handleMap := delete (m_handle p) (m_handleMap w); objects := objects w |}.

(** The end of the destructor: the object is gone. *)
Definition destroy (this : N) (w : World) : World :=
  {| m_handleMap := m_handleMap w; objects := delete this (objects w) |}.

(** ** Interleavings with [onDirective] *)

(** What other threads can do to the processor while a call of
    [onDirective] has released [m_mutex] around [preHandleDirective]:
    one constructor per critical section of [m_mutex] in the file.
    [onDirective] itself is absent, since [m_onDirectiveMutex] is held
    until the call returns.  The two sections of
    [processCancelingQueueLocked] and of [handleDirectiveLocked] lie
    before and after their router calls; the section after the router
    call of [processCancelingQueueLocked] changes nothing. *)
Inductive concurrent_section : Processor → Processor → Prop :=
  | section_setDialogRequestId id p :
      concurrent_section p (state_after (setDialogRequestId id) p)
  | section_onHandlingCompleted id p :
      concurrent_section p (state_after (onHandlingCompleted id) p)
  | section_onHandlingFailed id description p :
      concurrent_section p (state_after (onHandlingFailed id description) p)
  | section_shutdown p :
      concurrent_section p (state_after shutdown_locked p)
  | section_processCancelingQueue p :
      m_cancelingQueue p ≠ [] →
      concurrent_section p (with_cancelingQueue [] p)
  | section_handleDirective_begin p :
      m_handlingQueue p ≠ [] → m_isHandlingDirective p = false →
      concurrent_section p (with_isHandlingDirective true p)
  | section_handleDirective_return directive handled policy p :
      concurrent_section p
        (state_after (handleDirectiveLocked_return directive handled policy) p).

(** The return path of [onDirective] as the specification words it: the
    slot is tested for still holding this directive. *)
Definition onDirective_return_spec (directive : Directive) (handled : bool) : Locked bool :=
  p ← get;
  when (match m_directiveBeingPreHandled p with
        | Some held => same_pointer held directive
        | None => false
        end)
    (modify (with_directiveBeingPreHandled None);;
     when handled
       (p ← get;
        modify (with_handlingQueue (m_handlingQueue p ++ [directive]));;
        emit notify_one));;
  mret handled.

(** ** Vocabulary of the statements *)

(** [q'] is [q] without its first directive whose message id is [id],
    which stood at position [i]. *)
Definition first_removed (id : string) (i : nat) (q q' : list Directive) : Prop :=
  ∃ before directive after,
    q = before ++ directive :: after ∧ q' = before ++ after ∧
    length before = i ∧ messageId directive = id ∧
    Forall (λ x, messageId x ≠ id) before.

(** No directive of [q] has message id [id]. *)
Definition absent (id : string) (q : list Directive) : Prop :=
  Forall (λ x, messageId x ≠ id) q.

(** Some directive of [q] has message id [id]. *)
Definition present (id : string) (q : list Directive) : Prop :=
  Exists (λ x, messageId x = id) q.

(** The handling flag once the directive at position [i] of the handling
    queue has been taken out. *)
Definition flag_after_removal (i : nat) (flag : bool) : bool :=
  match i with
  | 0%nat => false
  | S _ => flag
  end.

(** The slot holds a directive whose message id is [id]. *)
Definition slot_holds (id : string) (p : Processor) : Prop :=
  ∃ directive, m_directiveBeingPreHandled p = Some directive ∧ messageId directive = id.

(** [directive] is at the front of [q], as a pointer. *)
Definition at_front (directive : Directive) (q : list Directive) : Prop :=
  ∃ front rest, q = front :: rest ∧ address front = address directive.

(** [q'] is [q] with its front popped if [directive] is at the front,
    and [q] otherwise. *)
Definition popped_if_front (directive : Directive) (q q' : list Directive) : Prop :=
  (at_front directive q ∧ q' = tail q) ∨ (¬ at_front directive q ∧ q' = q).

(** The slot after an action is the slot before it, or empty. *)
Definition keeps_or_clears_slot (p p' : Processor) : Prop :=
  m_directiveBeingPreHandled p' = m_directiveBeingPreHandled p ∨
  m_directiveBeingPreHandled p' = None.

(** ** Life of a processor *)

(** The members of a processor when its constructor returns, [handle]
    being the handle it has taken: the two flags are initialised to
    false, the string, the pointer and the deques are default
    constructed. *)
Definition new_processor (handle : ProcessorHandle) : Processor :=
  {| m_handle := handle; m_dialogRequestId := "";
     m_directiveBeingPreHandled := None;
     m_handlingQueue := []; m_cancelingQueue := [];
     m_isHandlingDirective := false; m_isShuttingDown := false |}.

(** The processor together with the directive of the [onDirective] call
    that is between its two critical sections, if there is one: the
    processor steps by a critical section of another thread, by the
    first section of an [onDirective] call that goes on to the router
    (only when no other call holds [m_onDirectiveMutex]), or by the
    last section of the call under way.  The calls of [onDirective]
    that return early change nothing and are no step. *)
Inductive step : option Directive * Processor → option Directive * Processor → Prop :=
  | step_concurrent pending p p' :
      concurrent_section p p' → step (pending, p) (pending, p')
  | step_onDirective_begin directive p :
      m_isShuttingDown p = false →
      dialogRequestId directive = m_dialogRequestId p →
      step (None, p) (Some directive, with_directiveBeingPreHandled (Some directive) p)
  | step_onDirective_return directive handled p :
      step (Some directive, p)
           (None, state_after (onDirective_return directive handled) p).

(** The states a processor of handle [handle] can be in. *)
Definition reachable (handle : ProcessorHandle) (s : option Directive * Processor) : Prop :=
  rtc step (None, new_processor handle) s.

(** Everything the processor tracks: the canceling queue, the handling
    queue, the slot. *)
Definition tracked (p : Processor) : list Directive :=
  m_cancelingQueue p ++ m_handlingQueue p ++ option_list (m_directiveBeingPreHandled p).

(** A set handling flag comes with a directive in the handling queue. *)
Definition flag_has_front (p : Processor) : Prop :=
  m_isHandlingDirective p = true → m_handlingQueue p ≠ [].

(** A processor that is shutting down has nothing left to pre-handle or
    to handle. *)
Definition drained_once_stopped (p : Processor) : Prop :=
  m_isShuttingDown p = true →
  m_handlingQueue p = [] ∧ m_directiveBeingPreHandled p = None ∧
  m_isHandlingDirective p = false.

(** The directives of the handling queue and of the slot carry the
    dialog request id of the processor. *)
Definition of_current_dialog (p : Processor) : Prop :=
  ∀ d, d ∈ m_handlingQueue p ++ option_list (m_directiveBeingPreHandled p) →
       dialogRequestId d = m_dialogRequestId p.

(** The slot holds the directive of the call under way, or nothing. *)
Definition slot_is_pending (s : option Directive * Processor) : Prop :=
  m_directiveBeingPreHandled s.2 = s.1 ∨ m_directiveBeingPreHandled s.2 = None.

(** [q] is [p] after a critical section without cancel-all: handle,
    dialog request id and shutdown flag are kept, the slot is kept or
    emptied, the queues only lose directives, and the handling flag is
    raised only over a non-empty handling queue. *)
Definition shrinks (p q : Processor) : Prop :=
  m_handle q = m_handle p ∧
  m_dialogRequestId q = m_dialogRequestId p ∧
  m_isShuttingDown q = m_isShuttingDown p ∧
  keeps_or_clears_slot p q ∧
  m_handlingQueue q `sublist_of` m_handlingQueue p ∧
  m_cancelingQueue q `sublist_of` m_cancelingQueue p ∧
  (flag_has_front p → flag_has_front q) ∧
  (m_isHandlingDirective q = true →
   m_isHandlingDirective p = true ∨ m_handlingQueue p ≠ []).

(** [q] after cancel-all, with the dialog request id and the shutdown
    flag that the caller of cancel-all leaves. *)
Definition canceled (dialog : string) (down : bool) (q : Processor) : Processor :=
  with_isShuttingDown down
    (with_dialogRequestId dialog (state_after queueAllDirectivesForCancellationLocked q)).

(** No directive anywhere in the processor has message id [id]. *)
Definition unknown (id : string) (p : Processor) : Prop :=
  ¬ slot_holds id p ∧ absent id (m_handlingQueue p) ∧ absent id (m_cancelingQueue p).


(** [processingLoop], for at most [fuel] passes of its [while (true)],
    started at its [wait]: true when the loop is left, which ends the
    thread; false when the worker is at a [wait] whose predicate is
    false, or when the passes are used up. *)
Fixpoint processingLoop (r : DirectiveRouter) (fuel : nat) : Locked bool :=
  match fuel with
  | O => mret false
  | S fuel =>
      p ← get;
      if wake p then
        (leaves ← processingLoop_pass r;
         if (leaves : bool) then mret true else processingLoop r fuel)
      else mret false
  end.

(** [shutdown] with its join, called while the worker is at its [wait]
    and nothing else runs: the two critical sections, then the passes
    of the worker until its loop is left, which is when
    [m_processingThread.join()] returns.  [None] when no live processor
    is at [this], or when the loop is not left within [fuel] passes. *)
Definition shutdown_joined (r : DirectiveRouter) (fuel : nat) (this : N) (w : World)
    : option (World * list Event) :=
  p ← objects w !! this;
  let '(ended, p', e) := (shutdown_locked;; processingLoop r fuel) p in
  if (ended : bool)
  then Some ({| m_handleMap := delete (m_handle p) (m_handleMap w);
                objects := <[this := p']> (objects w) |}, e)
  else None.

(** ** Sample processors *)

Definition directive_at (a : N) (id dialog : string) : Directive :=
  {| address := a; pointee := {| getMessageId := id; getDialogRequestId := dialog |} |}.

Definition M1 : Directive := directive_at 1 "M1" "D".
Definition M2 : Directive := directive_at 2 "M2" "D".
Definition M3 : Directive := directive_at 3 "M3" "D".

Definition M4 : Directive := directive_at 4 "M4" "D".

(** A processor of dialog "D" that tracks nothing. *)
Definition idle : Processor :=
  {| m_handle := 1%N; m_dialogRequestId := "D"; m_directiveBeingPreHandled := None;
     m_handlingQueue := []; m_cancelingQueue := [];
     m_isHandlingDirective := false; m_isShuttingDown := false |}.

(** [M1] is being handled and blocks, [M2] waits, [M3] is being
    pre-handled. *)
Definition busy : Processor :=
  {| m_handle := 1%N; m_dialogRequestId := "D"; m_directiveBeingPreHandled := Some M3;
     m_handlingQueue := [M1; M2]; m_cancelingQueue := [];
     m_isHandlingDirective := true; m_isShuttingDown := false |}.

(** [idle] once [shutdown] has run. *)
Definition stopped : Processor :=
  {| m_handle := 1%N; m_dialogRequestId := ""; m_directiveBeingPreHandled := None;
     m_handlingQueue := []; m_cancelingQueue := [];
     m_isHandlingDirective := false; m_isShuttingDown := true |}.

(** A router that accepts every directive, asks for blocking, and during
    whose calls nothing else touches the processor. *)
Definition accepting : DirectiveRouter :=
  {| preHandleDirective := λ _ _ p, (true, p);
     handleDirective := λ _ p, (true, Some BLOCKING, p);
     cancelDirective := λ _ p, p |}.

(** A router whose handler reports completion through its result object
    before [preHandleDirective] returns. *)
Definition completing : DirectiveRouter :=
  {| preHandleDirective := λ _ res p,
       (true, state_after (onHandlingCompleted (m_messageId res)) p);
     handleDirective := λ _ p, (true, None, p);
     cancelDirective := λ _ p, p |}.

(** [M1] and [M2] wait for the worker. *)
Definition waiting : Processor :=
  {| m_handle := 1%N; m_dialogRequestId := "D"; m_directiveBeingPreHandled := None;
     m_handlingQueue := [M1; M2]; m_cancelingQueue := [];
     m_isHandlingDirective := false; m_isShuttingDown := false |}.

(** [M1] and [M2] are being canceled. *)
Definition canceling : Processor :=
  {| m_handle := 1%N; m_dialogRequestId := ""; m_directiveBeingPreHandled := None;
     m_handlingQueue := []; m_cancelingQueue := [M1; M2];
     m_isHandlingDirective := false; m_isShuttingDown := false |}.

(** A router that accepts nothing. *)
Definition refusing : DirectiveRouter :=
  {| preHandleDirective := λ _ _ p, (false, p);
     handleDirective := λ _ p, (false, None, p);
     cancelDirective := λ _ p, p |}.

(** A router whose handler asks for blocking and reports completion
    through its result object before [handleDirective] returns. *)
Definition finishing : DirectiveRouter :=
  {| preHandleDirective := λ _ _ p, (true, p);
     handleDirective := λ directive p,
       (true, Some BLOCKING, state_after (onHandlingCompleted (messageId directive)) p);
     cancelDirective := λ _ p, p |}.

(** A world where [busy] lives at address 100 under handle 1. *)
Definition world : World :=
  {| m_handleMap := {[ 1%N := 100%N ]}; objects := {[ 100%N := busy ]} |}.

(** Unfolds the actions down to pairs of a value, a processor and events. *)
Ltac run :=
  cbv [result state_after events
       queueAllDirectivesForCancellationLocked setDialogRequestId
       removeDirectiveFromQueueLocked removeFromHandlingQueueLocked
       removeFromCancelingQueueLocked onHandlingCompleted onHandlingFailed
       shutdown_locked handleDirectiveLocked_return
       onDirective onDirective_return onDirective_return_spec
       unlocked_preHandleDirective unlocked_handleDirective
       handleDirectiveLocked
       get modify emit when mbind mret Locked_bind Locked_ret].

(** ** Properties *)

(** A blocking [M1] fails while [M2] and [M3] wait: the two are
    canceled in order, [M1] is not. *)
Example failure_of_blocking_head :
  onHandlingFailed "M1" "x"
    (with_isHandlingDirective true (with_handlingQueue [M1; M2; M3] idle))
  = (tt, with_cancelingQueue [M2; M3] (with_dialogRequestId "" idle),
     [notify_one; notify_one]).
Proof. reflexivity. Qed.

(** The worker dispatches [M1], is told to block, and then waits; once
    completion is reported the flag is cleared and [M2] is at the front. *)
Example blocking_head_then_completion :
  handleDirectiveLocked accepting waiting
  = (true, with_isHandlingDirective true waiting, [call_handleDirective M1]) ∧
  wake (with_isHandlingDirective true waiting) = false ∧
  onHandlingCompleted "M1" (with_isHandlingDirective true waiting)
  = (tt, with_handlingQueue [M2] waiting, [notify_one]).
Proof. split_and!; reflexivity. Qed.

(** One pass of the worker over a canceling queue calls the router's
    [cancelDirective] in queue order. *)
Example cancel_calls_in_order :
  processingLoop_pass accepting canceling
  = (false, with_cancelingQueue [] canceling,
     [call_cancelDirective M1; call_cancelDirective M2]).
Proof. reflexivity. Qed.

Lemma findDirectiveInQueueLocked_Some id q it :
  findDirectiveInQueueLocked id q = Some it → first_removed id it q (delete it q).
Proof.
  unfold findDirectiveInQueueLocked. intros H.
  destruct (list_find _ q) as [[i x]|] eqn:E; simplify_eq/=.
  apply list_find_Some in E as (Hl & Hx & Hb).
  exists (take it q), x, (drop (S it) q). split_and!.
  - by rewrite <- (take_drop_middle q it x) at 1.
  - apply delete_take_drop.
  - apply length_take_le. apply lookup_lt_Some in Hl. lia.
  - done.
  - apply Forall_forall. intros y Hy.
    apply list_elem_of_lookup in Hy as [j Hj].
    apply lookup_take_Some in Hj as [Hj Hlt]. eauto.
Qed.

Lemma findDirectiveInQueueLocked_None id q :
  findDirectiveInQueueLocked id q = None → absent id q.
Proof.
  unfold findDirectiveInQueueLocked, absent. intros H.
  destruct (list_find _ q) as [[i x]|] eqn:E; simplify_eq/=.
  by apply list_find_None in E.
Qed.

Lemma absent_find id q : absent id q → findDirectiveInQueueLocked id q = None.
Proof.
  unfold findDirectiveInQueueLocked, absent. intros H.
  by rewrite (proj2 (list_find_None (λ element, messageId element = id) q) H).
Qed.

Lemma first_removed_find id i q q' :
  first_removed id i q q' → findDirectiveInQueueLocked id q = Some i ∧ q' = delete i q.
Proof.
  intros (l1 & d & l2 & -> & -> & <- & Hd & Hb).
  unfold findDirectiveInQueueLocked. split.
  - assert (list_find (λ element, messageId element = id) (l1 ++ d :: l2)
            = Some (length l1, d)) as ->; [|done].
    apply list_find_Some. split_and!; [by rewrite list_lookup_middle|done|].
    intros j y Hj Hlt. rewrite lookup_app_l in Hj by done.
    rewrite Forall_forall in Hb. apply Hb. by eapply list_elem_of_lookup_2.
  - rewrite delete_take_drop. rewrite take_app_length.
    by rewrite (cons_middle d), app_assoc, drop_app_length'
      by (rewrite length_app; simpl; lia).
Qed.

Lemma isBeingPreHandled_true id p : isBeingPreHandled id p = true ↔ slot_holds id p.
Proof.
  unfold isBeingPreHandled, slot_holds. destruct (m_directiveBeingPreHandled p) as [d|].
  - rewrite bool_decide_eq_true. split; [by exists d|].
    by intros (d' & [= <-] & ?).
  - split; [done|]. by intros (d' & [=] & ?).
Qed.

Lemma isBeingPreHandled_false id p : isBeingPreHandled id p = false ↔ ¬ slot_holds id p.
Proof. rewrite <- isBeingPreHandled_true. by destruct (isBeingPreHandled id p). Qed.

Lemma queueAll_run p :
  queueAllDirectivesForCancellationLocked p =
  let moved := m_handlingQueue p ++ option_list (m_directiveBeingPreHandled p) in
  (tt,
   {| m_handle := m_handle p; m_dialogRequestId := "";
      m_directiveBeingPreHandled := None; m_handlingQueue := [];
      m_cancelingQueue := m_cancelingQueue p ++ moved;
      m_isHandlingDirective := false; m_isShuttingDown := m_isShuttingDown p |},
   if bool_decide (moved = []) then [] else [notify_one]).
Proof.
  destruct p as [h dlg [d|] hq cq flag down]; run; simpl.
  - rewrite !bool_decide_eq_false_2 by (by destruct hq). done.
  - rewrite !app_nil_r. case_bool_decide; simpl; [subst; by rewrite app_nil_r|done].
Qed.

(** C2. Cancel-all empties the dialog request id, the slot and the
    handling queue, clears the handling flag, and leaves in the
    canceling queue its old contents followed by the old handling queue
    followed by the directive of the slot, if any: the directives keep
    the order in which they were taken in. *)
Theorem queueAll_transforms p :
  let p' := state_after queueAllDirectivesForCancellationLocked p in
  m_dialogRequestId p' = "" ∧
  m_cancelingQueue p' =
    m_cancelingQueue p ++ m_handlingQueue p ++ option_list (m_directiveBeingPreHandled p) ∧
  m_handlingQueue p' = [] ∧
  m_directiveBeingPreHandled p' = None ∧
  m_isHandlingDirective p' = false ∧
  m_isShuttingDown p' = m_isShuttingDown p ∧
  m_handle p' = m_handle p.
Proof. unfold state_after. rewrite queueAll_run. simpl. done. Qed.

(** C9, as stated: on a processor with an empty slot and an empty
    handling queue, cancel-all does not notify [m_wakeProcessingLoop]. *)
Lemma queueAll_idle_silent :
  m_directiveBeingPreHandled idle = None ∧ m_handlingQueue idle = [] ∧
  notify_one ∉ events queueAllDirectivesForCancellationLocked idle.
Proof. split_and!; [done..|]. vm_compute. by intros ?%elem_of_nil. Qed.

(** C9, amended. Cancel-all notifies the worker once when the slot is
    occupied or the handling queue is not empty, and not at all when
    both are empty. *)
Theorem queueAll_notifies p :
  (m_directiveBeingPreHandled p ≠ None ∨ m_handlingQueue p ≠ [] →
   events queueAllDirectivesForCancellationLocked p = [notify_one]) ∧
  (m_directiveBeingPreHandled p = None ∧ m_handlingQueue p = [] →
   events queueAllDirectivesForCancellationLocked p = []).
Proof.
  unfold events. rewrite queueAll_run. simpl. split.
  - intros H. rewrite bool_decide_eq_false_2; [done|].
    intros [E1 E2]%app_eq_nil. destruct (m_directiveBeingPreHandled p); [done|].
    by destruct H.
  - by intros [-> ->].
Qed.

Lemma queueAll_notifies_witness :
  (m_directiveBeingPreHandled busy ≠ None ∨ m_handlingQueue busy ≠ []) ∧
  events queueAllDirectivesForCancellationLocked busy = [notify_one] ∧
  (m_directiveBeingPreHandled idle = None ∧ m_handlingQueue idle = []) ∧
  events queueAllDirectivesForCancellationLocked idle = [].
Proof.
  assert (m_directiveBeingPreHandled busy ≠ None ∨ m_handlingQueue busy ≠ []) as Hb
    by (left; discriminate).
  assert (m_directiveBeingPreHandled idle = None ∧ m_handlingQueue idle = []) as Hi
    by (split; reflexivity).
  exact (conj Hb (conj (proj1 (queueAll_notifies busy) Hb)
           (conj Hi (proj2 (queueAll_notifies idle) Hi)))).
Defined.

Lemma setDialogRequestId_run new_id p :
  setDialogRequestId new_id p =
  if bool_decide (new_id = m_dialogRequestId p) then (tt, p, [])
  else (tt,
        with_dialogRequestId new_id (state_after queueAllDirectivesForCancellationLocked p),
        events queueAllDirectivesForCancellationLocked p).
Proof.
  unfold setDialogRequestId, state_after, events, get, modify, mbind, Locked_bind.
  destruct (bool_decide (new_id = m_dialogRequestId p)); [done|].
  destruct (queueAllDirectivesForCancellationLocked p) as [[[] q] e]. simpl.
  by rewrite app_nil_r.
Qed.

(** C8. [setDialogRequestId] with the current id changes nothing and
    emits nothing; with another id it is cancel-all followed by the
    assignment of the new id, so that everything tracked for the
    previous dialog ends in the canceling queue, in order. *)
Theorem setDialogRequestId_cases new_id p :
  (new_id = m_dialogRequestId p → setDialogRequestId new_id p = (tt, p, [])) ∧
  (new_id ≠ m_dialogRequestId p →
   let canceled := state_after queueAllDirectivesForCancellationLocked p in
   let p' := state_after (setDialogRequestId new_id) p in
   p' = with_dialogRequestId new_id canceled ∧
   events (setDialogRequestId new_id) p = events queueAllDirectivesForCancellationLocked p ∧
   m_dialogRequestId p' = new_id ∧
   m_cancelingQueue p' =
     m_cancelingQueue p ++ m_handlingQueue p ++ option_list (m_directiveBeingPreHandled p) ∧
   m_handlingQueue p' = [] ∧
   m_directiveBeingPreHandled p' = None ∧
   m_isHandlingDirective p' = false).
Proof.
  split; intros H.
  - rewrite setDialogRequestId_run. by rewrite bool_decide_eq_true_2.
  - cbv zeta. unfold state_after at 1 3 4 5 6 7, events at 1.
    rewrite setDialogRequestId_run, bool_decide_eq_false_2 by done. simpl.
    unfold state_after. rewrite queueAll_run. simpl. done.
Qed.

Lemma setDialogRequestId_cases_witness :
  setDialogRequestId "D" busy = (tt, busy, []) ∧
  m_cancelingQueue (state_after (setDialogRequestId "D2") busy) = [M1; M2; M3] ∧
  m_dialogRequestId (state_after (setDialogRequestId "D2") busy) = "D2".
Proof.
  split.
  - apply (proj1 (setDialogRequestId_cases "D" busy)). reflexivity.
  - assert ("D2" ≠ m_dialogRequestId busy) as Hne by discriminate.
    destruct (proj2 (setDialogRequestId_cases "D2" busy) Hne) as (_ & _ & Hd & Hc & _).
    split; [exact Hc|exact Hd].
Defined.

(** C7, as stated: a directive of another dialog handed to a processor
    that is shutting down is answered with false, since the shutdown
    test comes first. *)
Lemma onDirective_stale_while_stopped :
  m_isShuttingDown stopped = true ∧
  dialogRequestId M1 ≠ m_dialogRequestId stopped ∧
  onDirective accepting (Some M1) stopped = (false, stopped, []).
Proof. split_and!; [reflexivity|discriminate|reflexivity]. Qed.

(** C7, amended. [onDirective] returns false for a null directive, and
    for a non-null one while the processor is shutting down; it returns
    true for a non-null one of another dialog while the processor is not
    shutting down.  In the three cases the processor is left as it was
    and the router is not called. *)
Theorem onDirective_early_returns r directive p :
  onDirective r None p = (false, p, []) ∧
  (m_isShuttingDown p = true → onDirective r (Some directive) p = (false, p, [])) ∧
  (m_isShuttingDown p = false → dialogRequestId directive ≠ m_dialogRequestId p →
   onDirective r (Some directive) p = (true, p, [])).
Proof.
  split_and!.
  - done.
  - intros H. unfold onDirective, get, mbind, Locked_bind. by rewrite H.
  - intros H Hne. unfold onDirective, get, mbind, Locked_bind. rewrite H.
    by rewrite bool_decide_eq_false_2.
Qed.

Lemma onDirective_early_returns_witness :
  onDirective accepting None idle = (false, idle, []) ∧
  onDirective accepting (Some M1) stopped = (false, stopped, []) ∧
  onDirective accepting (Some (directive_at 4 "M4" "E")) idle = (true, idle, []).
Proof.
  pose proof (onDirective_early_returns accepting M1 stopped) as (H1 & H2 & _).
  pose proof (onDirective_early_returns accepting (directive_at 4 "M4" "E") idle)
    as (H0 & _ & H3).
  split_and!.
  - exact H0.
  - apply H2. reflexivity.
  - apply H3; [reflexivity|discriminate].
Defined.

(** C3. When a non-null directive of the current dialog reaches a
    processor that is not shutting down, the router's
    [preHandleDirective] is called once, on a processor whose slot holds
    the directive and with a result object made of the processor's
    handle and the directive's message id.  If the slot is occupied when
    the lock is taken again, it is emptied and the directive goes to the
    back of the handling queue exactly when the router accepted it; if
    the slot is empty by then, the processor is left as found.
    [onDirective] returns what the router returned. *)
Theorem onDirective_pre_handles r directive p accepted relocked :
  m_isShuttingDown p = false →
  dialogRequestId directive = m_dialogRequestId p →
  let sink := {| m_processorHandle := m_handle p; m_messageId := messageId directive |} in
  let unlocked := with_directiveBeingPreHandled (Some directive) p in
  preHandleDirective r directive sink unlocked = (accepted, relocked) →
  let p' := state_after (onDirective r (Some directive)) p in
  let e := events (onDirective r (Some directive)) p in
  m_directiveBeingPreHandled unlocked = Some directive ∧
  result (onDirective r (Some directive)) p = accepted ∧
  (∃ wakes, e = call_preHandleDirective directive sink :: wakes ∧
            Forall (λ x, x = notify_one) wakes) ∧
  (is_Some (m_directiveBeingPreHandled relocked) →
   p' = with_handlingQueue
          (if accepted then m_handlingQueue relocked ++ [directive]
           else m_handlingQueue relocked)
          (with_directiveBeingPreHandled None relocked) ∧
   e = call_preHandleDirective directive sink :: (if accepted then [notify_one] else [])) ∧
  (m_directiveBeingPreHandled relocked = None →
   p' = relocked ∧ e = [call_preHandleDirective directive sink]).
Proof.
  intros Hup Hdlg sink unlocked Hcall p' e. subst p' e.
  unfold result, state_after, events.
  assert (onDirective r (Some directive) p =
          let '(v, q, e2) := onDirective_return directive accepted relocked in
          (v, q, call_preHandleDirective directive sink :: e2)) as ->.
  { unfold onDirective, unlocked_preHandleDirective, new_DirectiveHandlerResult,
      get, modify, mbind, Locked_bind.
    rewrite Hup, bool_decide_eq_true_2 by done. simpl.
    fold sink unlocked. rewrite Hcall.
    by destruct (onDirective_return directive accepted relocked) as [[v q] e2]. }
  destruct relocked as [h dlg slot hq cq flag down].
  destruct slot as [held|], accepted; run; simpl;
    (split_and!; [done|done|eexists; split; [done|by repeat constructor]| |]);
    try (intros [? [=]]); try (intros [=]); try done.
Qed.

Lemma onDirective_pre_handles_witness :
  onDirective accepting (Some M1) idle =
    (true, with_handlingQueue [M1] idle,
     [call_preHandleDirective M1 {| m_processorHandle := 1%N; m_messageId := "M1" |};
      notify_one]) ∧
  onDirective completing (Some M1) idle =
    (true, idle,
     [call_preHandleDirective M1 {| m_processorHandle := 1%N; m_messageId := "M1" |}]).
Proof.
  assert (m_isShuttingDown idle = false) as Hup by reflexivity.
  assert (dialogRequestId M1 = m_dialogRequestId idle) as Hdlg by reflexivity.
  split.
  - pose proof (onDirective_pre_handles accepting M1 idle true
                  (with_directiveBeingPreHandled (Some M1) idle) Hup Hdlg eq_refl)
      as (_ & Hr & _ & Hocc & _).
    destruct Hocc as [Hs He]; [by eexists|].
    unfold result, state_after, events in *.
    destruct (onDirective accepting (Some M1) idle) as [[v q] e].
    simpl in *. by subst.
  - pose proof (onDirective_pre_handles completing M1 idle true idle Hup Hdlg eq_refl)
      as (_ & Hr & _ & _ & Hemp).
    destruct Hemp as [Hs He]; [reflexivity|].
    unfold result, state_after, events in *.
    destruct (onDirective completing (Some M1) idle) as [[v q] e].
    simpl in *. by subst.
Defined.

Lemma same_pointer_at_front directive front rest :
  same_pointer front directive = true ↔ at_front directive (front :: rest).
Proof.
  unfold same_pointer, at_front. rewrite bool_decide_eq_true. split.
  - intros H. by exists front, rest.
  - by intros (f & r & [= <- <-] & H).
Qed.

Lemma handleDirectiveLocked_return_run directive handled policy p :
  ∃ q, popped_if_front directive (m_handlingQueue p) q ∧
  handleDirectiveLocked_return directive handled policy p =
    if handled && bool_decide (BLOCKING = policy) then (true, p, [])
    else
      let popped := with_handlingQueue q (with_isHandlingDirective false p) in
      if handled then (true, popped, [])
      else (true, state_after queueAllDirectivesForCancellationLocked popped,
            events queueAllDirectivesForCancellationLocked popped).
Proof.
  exists (match m_handlingQueue p with
          | front :: rest => if same_pointer front directive then rest
                             else m_handlingQueue p
          | [] => []
          end).
  split.
  - unfold popped_if_front. destruct (m_handlingQueue p) as [|front rest] eqn:E.
    + right. split; [|done]. by intros (f & r & [=] & _).
    + destruct (same_pointer front directive) eqn:S.
      * left. split; [|done]. by apply same_pointer_at_front.
      * right. split; [|done]. rewrite <- same_pointer_at_front. by rewrite S.
  - unfold handleDirectiveLocked_return at 1.
    unfold state_after, events.
    destruct p as [h dlg slot hq cq flag down]; simpl.
    destruct handled, (bool_decide (BLOCKING = policy)); simpl;
      unfold when, get, modify, mbind, mret, Locked_bind, Locked_ret; simpl;
      try done;
      destruct hq as [|front rest]; simpl; try done;
      try (destruct (same_pointer front directive); simpl; try done);
      rewrite !queueAll_run; simpl; by rewrite ?app_nil_r.
Qed.

(** C1, as stated: the handler of [M1] is dispatched, asks for blocking
    and reports completion before [handleDirective] returns; the report
    takes [M1] out of the handling queue and clears the flag, and the
    return path leaves that as it is.  So after a return with true and
    BLOCKING the flag is not set and [M1] is not at the front. *)
Lemma handleDirectiveLocked_completed_during_call :
  handleDirective finishing M1 (with_isHandlingDirective true waiting)
  = (true, Some BLOCKING, with_handlingQueue [M2] waiting) ∧
  m_isHandlingDirective (state_after (handleDirectiveLocked finishing) waiting) = false ∧
  m_handlingQueue (state_after (handleDirectiveLocked finishing) waiting) = [M2] ∧
  ¬ at_front M1 (m_handlingQueue (state_after (handleDirectiveLocked finishing) waiting)).
Proof.
  split_and!; [reflexivity..|].
  intros (front & rest & Hq & Ha). vm_compute in Hq. injection Hq as <- <-.
  discriminate Ha.
Qed.

(** C1, amended. When the router's [handleDirective] returns to
    [handleDirectiveLocked]: if it returned false or the policy is not
    BLOCKING, the handling flag is cleared and the front of the handling
    queue is popped exactly when it is still the dispatched directive,
    and if it returned false cancel-all follows; if it returned true
    with BLOCKING, the processor is left as found when the lock was
    taken again, so the flag is set and the directive is at the front
    afterwards exactly when they were at that point, as they are when
    nothing touched the processor during the call. *)
Theorem handleDirectiveLocked_on_return r directive rest p handled written relocked :
  m_handlingQueue p = directive :: rest →
  m_isHandlingDirective p = false →
  handleDirective r directive (with_isHandlingDirective true p) = (handled, written, relocked) →
  let policy := default NONE written in
  let p' := state_after (handleDirectiveLocked r) p in
  result (handleDirectiveLocked r) p = true ∧
  (handled = false ∨ policy ≠ BLOCKING →
   ∃ q, popped_if_front directive (m_handlingQueue relocked) q ∧
        let popped := with_handlingQueue q (with_isHandlingDirective false relocked) in
        m_isHandlingDirective p' = false ∧
        (handled = true → p' = popped) ∧
        (handled = false →
         p' = state_after queueAllDirectivesForCancellationLocked popped)) ∧
  (handled = true ∧ policy = BLOCKING →
   p' = relocked ∧
   (m_isHandlingDirective relocked = true → m_isHandlingDirective p' = true) ∧
   (at_front directive (m_handlingQueue relocked) →
    at_front directive (m_handlingQueue p')) ∧
   (relocked = with_isHandlingDirective true p →
    m_isHandlingDirective p' = true ∧ m_handlingQueue p' = directive :: rest)).
Proof.
  intros Hq Hflag Hcall policy p'. subst p'. unfold result, state_after.
  assert (handleDirectiveLocked r p =
          let '(v, q, e2) := handleDirectiveLocked_return directive handled policy relocked in
          (v, q, call_handleDirective directive :: e2)) as ->.
  { unfold handleDirectiveLocked, unlocked_handleDirective, get, modify, mbind, Locked_bind.
    rewrite Hq, Hflag, Hcall. fold policy.
    by destruct (handleDirectiveLocked_return directive handled policy relocked)
      as [[v q] e2]. }
  destruct (handleDirectiveLocked_return_run directive handled policy relocked)
    as (q & Hpop & ->).
  split_and!.
  - by destruct handled, (bool_decide (BLOCKING = policy)).
  - intros Hcase. exists q. split; [done|]. cbv zeta.
    assert (handled && bool_decide (BLOCKING = policy) = false) as ->.
    { destruct Hcase as [->|Hne]; [done|].
      rewrite bool_decide_eq_false_2 by done. by destruct handled. }
    destruct handled; simpl; split_and!; try done.
    unfold state_after. by rewrite queueAll_run.
  - intros [-> Hpol]. rewrite bool_decide_eq_true_2 by done. simpl.
    split_and!; try done. intros ->. simpl. by rewrite Hq.
Qed.

Lemma handleDirectiveLocked_on_return_witness :
  state_after (handleDirectiveLocked accepting) waiting = with_isHandlingDirective true waiting ∧
  state_after (handleDirectiveLocked refusing) waiting =
    with_cancelingQueue [M2] (with_handlingQueue [] (with_dialogRequestId "" waiting)).
Proof.
  assert (m_handlingQueue waiting = M1 :: [M2]) as Hq by reflexivity.
  assert (m_isHandlingDirective waiting = false) as Hflag by reflexivity.
  split.
  - pose proof (handleDirectiveLocked_on_return accepting M1 [M2] waiting
                  true (Some BLOCKING) (with_isHandlingDirective true waiting)
                  Hq Hflag eq_refl) as (_ & _ & H).
    destruct H as [H _]; [by split|]. exact H.
  - pose proof (handleDirectiveLocked_on_return refusing M1 [M2] waiting
                  false None (with_isHandlingDirective true waiting)
                  Hq Hflag eq_refl) as (_ & H & _).
    destruct H as (q & Hpop & _ & _ & H); [by left|].
    rewrite H by done.
    destruct Hpop as [[_ ->]|[Hno _]]; [reflexivity|].
    destruct Hno. by exists M1, [M2].
Defined.

Lemma absent_present id q : absent id q → present id q → False.
Proof.
  unfold absent, present. rewrite Forall_forall, Exists_exists.
  intros Ha (x & Hx & Hid). by apply (Ha x).
Qed.

Lemma first_removed_present id i q q' : first_removed id i q q' → present id q.
Proof.
  intros (l1 & d & l2 & -> & _ & _ & Hd & _). apply Exists_exists.
  exists d. split; [|done]. rewrite elem_of_app. right. by left.
Qed.

Lemma removeFromHandlingQueueLocked_run id p :
  removeFromHandlingQueueLocked id p =
  match findDirectiveInQueueLocked id (m_handlingQueue p) with
  | None => (false, p, [])
  | Some it =>
      let q := delete it (m_handlingQueue p) in
      (true,
       with_handlingQueue q
         (with_isHandlingDirective (flag_after_removal it (m_isHandlingDirective p)) p),
       if bool_decide (q = []) then [] else [notify_one])
  end.
Proof.
  unfold removeFromHandlingQueueLocked, get, mbind, Locked_bind.
  destruct (findDirectiveInQueueLocked id (m_handlingQueue p)) as [it|]; [|done].
  destruct p as [h dlg slot hq cq flag down]; simpl.
  destruct flag, it as [|it]; run; simpl;
    by destruct (bool_decide (_ = [])).
Qed.

Lemma removeFromCancelingQueueLocked_run id p :
  removeFromCancelingQueueLocked id p =
  match findDirectiveInQueueLocked id (m_cancelingQueue p) with
  | None => (false, p, [])
  | Some it =>
      let q := delete it (m_cancelingQueue p) in
      (true, with_cancelingQueue q p, if bool_decide (q = []) then [] else [notify_one])
  end.
Proof.
  unfold removeFromCancelingQueueLocked, get, mbind, Locked_bind.
  destruct (findDirectiveInQueueLocked id (m_cancelingQueue p)) as [it|]; [|done].
  destruct p as [h dlg slot hq cq flag down]; run; simpl.
  by destruct (bool_decide (_ = [])).
Qed.

Lemma onHandlingCompleted_run id p :
  state_after (onHandlingCompleted id) p =
  if isBeingPreHandled id p then with_directiveBeingPreHandled None p
  else match findDirectiveInQueueLocked id (m_handlingQueue p) with
       | Some _ => state_after (removeFromHandlingQueueLocked id) p
       | None => state_after (removeFromCancelingQueueLocked id) p
       end.
Proof.
  unfold state_after, onHandlingCompleted, get, modify, mbind, mret,
    Locked_bind, Locked_ret.
  destruct (isBeingPreHandled id p); [done|].
  rewrite removeFromHandlingQueueLocked_run.
  destruct (findDirectiveInQueueLocked id (m_handlingQueue p)); simpl; [done|].
  by destruct (removeFromCancelingQueueLocked id p) as [[? ?] ?].
Qed.

Lemma onHandlingFailed_run id description p :
  state_after (onHandlingFailed id description) p =
  if isBeingPreHandled id p
  then state_after queueAllDirectivesForCancellationLocked
         (with_directiveBeingPreHandled None p)
  else match findDirectiveInQueueLocked id (m_handlingQueue p) with
       | Some _ => state_after queueAllDirectivesForCancellationLocked
                     (state_after (removeFromHandlingQueueLocked id) p)
       | None => state_after (removeFromCancelingQueueLocked id) p
       end.
Proof.
  unfold state_after, onHandlingFailed, get, modify, mbind, mret,
    Locked_bind, Locked_ret.
  destruct (isBeingPreHandled id p).
  { by destruct (queueAllDirectivesForCancellationLocked _) as [[? ?] ?]. }
  rewrite removeFromHandlingQueueLocked_run.
  destruct (findDirectiveInQueueLocked id (m_handlingQueue p)); simpl.
  - by destruct (queueAllDirectivesForCancellationLocked _) as [[? ?] ?].
  - by destruct (removeFromCancelingQueueLocked id p) as [[? ?] ?].
Qed.

(** The four cases of a completion or failure report, told apart by
    where the first directive with the message id is found. *)
Lemma report_cases id p :
  slot_holds id p ∧ isBeingPreHandled id p = true
  ∨ (¬ slot_holds id p ∧ isBeingPreHandled id p = false ∧
     ∃ i, findDirectiveInQueueLocked id (m_handlingQueue p) = Some i ∧
          first_removed id i (m_handlingQueue p) (delete i (m_handlingQueue p)))
  ∨ (¬ slot_holds id p ∧ isBeingPreHandled id p = false ∧
     absent id (m_handlingQueue p) ∧
     findDirectiveInQueueLocked id (m_handlingQueue p) = None ∧
     ∃ i, findDirectiveInQueueLocked id (m_cancelingQueue p) = Some i ∧
          first_removed id i (m_cancelingQueue p) (delete i (m_cancelingQueue p)))
  ∨ (¬ slot_holds id p ∧ isBeingPreHandled id p = false ∧
     absent id (m_handlingQueue p) ∧ absent id (m_cancelingQueue p) ∧
     findDirectiveInQueueLocked id (m_handlingQueue p) = None ∧
     findDirectiveInQueueLocked id (m_cancelingQueue p) = None).
Proof.
  destruct (isBeingPreHandled id p) eqn:Es.
  { left. split; [by apply isBeingPreHandled_true|done]. }
  right. apply isBeingPreHandled_false in Es.
  destruct (findDirectiveInQueueLocked id (m_handlingQueue p)) as [i|] eqn:Eh.
  { left. split_and!; [done..|]. exists i. split; [done|].
    by apply findDirectiveInQueueLocked_Some. }
  right. apply findDirectiveInQueueLocked_None in Eh as Hh.
  destruct (findDirectiveInQueueLocked id (m_cancelingQueue p)) as [i|] eqn:Ec.
  { left. split_and!; [done..|]. exists i. split; [done|].
    by apply findDirectiveInQueueLocked_Some. }
  right. apply findDirectiveInQueueLocked_None in Ec as Hc. done.
Qed.

(** C5. [onHandlingCompleted]: a matching directive in the slot is
    dropped from it and the queues stay as they are; otherwise the first
    matching directive of the handling queue is taken out, and the
    handling flag is cleared if it was the front; otherwise the first
    matching directive of the canceling queue is taken out; otherwise
    nothing changes.  In no case is there a cancel-all: the dialog
    request id is kept and no directive enters the canceling queue. *)
Theorem onHandlingCompleted_cases id p :
  let p' := state_after (onHandlingCompleted id) p in
  (slot_holds id p → p' = with_directiveBeingPreHandled None p) ∧
  (¬ slot_holds id p → present id (m_handlingQueue p) →
   ∃ i q, first_removed id i (m_handlingQueue p) q ∧
          p' = with_handlingQueue q
                 (with_isHandlingDirective
                    (flag_after_removal i (m_isHandlingDirective p)) p)) ∧
  (¬ slot_holds id p → absent id (m_handlingQueue p) →
   present id (m_cancelingQueue p) →
   ∃ i q, first_removed id i (m_cancelingQueue p) q ∧ p' = with_cancelingQueue q p) ∧
  (¬ slot_holds id p → absent id (m_handlingQueue p) →
   absent id (m_cancelingQueue p) → p' = p) ∧
  m_dialogRequestId p' = m_dialogRequestId p ∧
  m_cancelingQueue p' `sublist_of` m_cancelingQueue p ∧
  m_handlingQueue p' `sublist_of` m_handlingQueue p.
Proof.
  cbv zeta. rewrite onHandlingCompleted_run.
  destruct (report_cases id p)
    as [(Hs & ->)|[(Hs & -> & i & Eh & Hr)|[(Hs & -> & Hh & Eh & i & Ec & Hr)
                                           |(Hs & -> & Hh & Hc & Eh & Ec)]]];
    rewrite ?Eh; unfold state_after;
    rewrite ?removeFromHandlingQueueLocked_run, ?removeFromCancelingQueueLocked_run,
      ?Eh, ?Ec; simpl.
  - split_and!; try done.
  - split_and!; try done.
    + intros _ _. by exists i, (delete i (m_handlingQueue p)).
    + intros _ Ha. destruct (absent_present _ _ Ha (first_removed_present _ _ _ _ Hr)).
    + intros _ Ha. destruct (absent_present _ _ Ha (first_removed_present _ _ _ _ Hr)).
    + apply sublist_delete.
  - split_and!; try done.
    + intros _ Hp. destruct (absent_present _ _ Hh Hp).
    + intros _ _ _. by exists i, (delete i (m_cancelingQueue p)).
    + intros _ _ Ha. destruct (absent_present _ _ Ha (first_removed_present _ _ _ _ Hr)).
    + apply sublist_delete.
  - split_and!; try done.
    + intros _ Hp. destruct (absent_present _ _ Hh Hp).
    + intros _ _ Hp. destruct (absent_present _ _ Hc Hp).
Qed.

(** C4. [onHandlingFailed]: a matching directive in the slot is dropped
    from it and cancel-all follows; otherwise the first matching
    directive of the handling queue is taken out, the handling flag
    being cleared if it was the front, and cancel-all follows; otherwise
    the first matching directive of the canceling queue is taken out and
    nothing else is done; otherwise nothing changes. *)
Theorem onHandlingFailed_cases id description p :
  let p' := state_after (onHandlingFailed id description) p in
  (slot_holds id p →
   p' = state_after queueAllDirectivesForCancellationLocked
          (with_directiveBeingPreHandled None p)) ∧
  (¬ slot_holds id p → present id (m_handlingQueue p) →
   ∃ i q, first_removed id i (m_handlingQueue p) q ∧
          p' = state_after queueAllDirectivesForCancellationLocked
                 (with_handlingQueue q
                    (with_isHandlingDirective
                       (flag_after_removal i (m_isHandlingDirective p)) p))) ∧
  (¬ slot_holds id p → absent id (m_handlingQueue p) →
   present id (m_cancelingQueue p) →
   ∃ i q, first_removed id i (m_cancelingQueue p) q ∧ p' = with_cancelingQueue q p) ∧
  (¬ slot_holds id p → absent id (m_handlingQueue p) →
   absent id (m_cancelingQueue p) → p' = p).
Proof.
  cbv zeta. rewrite onHandlingFailed_run.
  destruct (report_cases id p)
    as [(Hs & ->)|[(Hs & -> & i & Eh & Hr)|[(Hs & -> & Hh & Eh & i & Ec & Hr)
                                           |(Hs & -> & Hh & Hc & Eh & Ec)]]];
    rewrite ?Eh.
  - split_and!; done.
  - assert (state_after (removeFromHandlingQueueLocked id) p =
            with_handlingQueue (delete i (m_handlingQueue p))
              (with_isHandlingDirective
                 (flag_after_removal i (m_isHandlingDirective p)) p)) as ->.
    { unfold state_after. by rewrite removeFromHandlingQueueLocked_run, Eh. }
    split_and!; try done.
    + intros _ _. by exists i, (delete i (m_handlingQueue p)).
    + intros _ Ha. destruct (absent_present _ _ Ha (first_removed_present _ _ _ _ Hr)).
    + intros _ Ha. destruct (absent_present _ _ Ha (first_removed_present _ _ _ _ Hr)).
  - unfold state_after. rewrite removeFromCancelingQueueLocked_run, Ec. simpl.
    split_and!; try done.
    + intros _ Hp. destruct (absent_present _ _ Hh Hp).
    + intros _ _ _. by exists i, (delete i (m_cancelingQueue p)).
    + intros _ _ Ha. destruct (absent_present _ _ Ha (first_removed_present _ _ _ _ Hr)).
  - unfold state_after. rewrite removeFromCancelingQueueLocked_run, Ec. simpl.
    split_and!; try done.
    + intros _ Hp. destruct (absent_present _ _ Hh Hp).
    + intros _ _ Hp. destruct (absent_present _ _ Hc Hp).
Qed.

Lemma busy_slot_holds_M3 : slot_holds "M3" busy.
Proof. by exists M3. Qed.

Lemma busy_slot_not_M id : id ≠ "M3" → ¬ slot_holds id busy.
Proof. intros Hne (d & [= <-] & Hid). by destruct Hne. Qed.

Lemma canceling_slot_empty id : ¬ slot_holds id canceling.
Proof. by intros (d & [=] & _). Qed.

Lemma onHandlingCompleted_cases_witness :
  state_after (onHandlingCompleted "M3") busy = with_directiveBeingPreHandled None busy ∧
  (∃ i q, first_removed "M1" i (m_handlingQueue busy) q ∧
          state_after (onHandlingCompleted "M1") busy =
            with_handlingQueue q
              (with_isHandlingDirective
                 (flag_after_removal i (m_isHandlingDirective busy)) busy)) ∧
  (∃ i q, first_removed "M2" i (m_cancelingQueue canceling) q ∧
          state_after (onHandlingCompleted "M2") canceling = with_cancelingQueue q canceling) ∧
  state_after (onHandlingCompleted "M9") canceling = canceling.
Proof.
  split_and!.
  - apply (onHandlingCompleted_cases "M3" busy), busy_slot_holds_M3.
  - apply (onHandlingCompleted_cases "M1" busy).
    + by apply busy_slot_not_M.
    + by left.
  - apply (onHandlingCompleted_cases "M2" canceling).
    + apply canceling_slot_empty.
    + constructor.
    + right. by left.
  - apply (onHandlingCompleted_cases "M9" canceling).
    + apply canceling_slot_empty.
    + constructor.
    + by repeat constructor.
Defined.

Lemma onHandlingFailed_cases_witness :
  state_after (onHandlingFailed "M3" "x") busy =
    state_after queueAllDirectivesForCancellationLocked
      (with_directiveBeingPreHandled None busy) ∧
  (∃ i q, first_removed "M1" i (m_handlingQueue busy) q ∧
          state_after (onHandlingFailed "M1" "x") busy =
            state_after queueAllDirectivesForCancellationLocked
              (with_handlingQueue q
                 (with_isHandlingDirective
                    (flag_after_removal i (m_isHandlingDirective busy)) busy))) ∧
  (∃ i q, first_removed "M2" i (m_cancelingQueue canceling) q ∧
          state_after (onHandlingFailed "M2" "x") canceling = with_cancelingQueue q canceling) ∧
  state_after (onHandlingFailed "M9" "x") canceling = canceling.
Proof.
  split_and!.
  - apply (onHandlingFailed_cases "M3" "x" busy), busy_slot_holds_M3.
  - apply (onHandlingFailed_cases "M1" "x" busy).
    + by apply busy_slot_not_M.
    + by left.
  - apply (onHandlingFailed_cases "M2" "x" canceling).
    + apply canceling_slot_empty.
    + constructor.
    + right. by left.
  - apply (onHandlingFailed_cases "M9" "x" canceling).
    + apply canceling_slot_empty.
    + constructor.
    + by repeat constructor.
Defined.

(** C6. A result object whose processor handle is not in the handle map
    does nothing on [setCompleted] and on [setFailed]: the call returns,
    the world is unchanged, nothing is emitted, and no processor object
    is looked at, whatever lives or no longer lives at any address.
    That is the case of every result object of a processor once its
    [shutdown] has run, and still so once the processor is destroyed. *)
Theorem result_without_processor res description w :
  (m_handleMap w !! m_processorHandle res = None →
   setCompleted res w = Some (w, []) ∧ setFailed res description w = Some (w, [])) ∧
  (∀ this p w1 e,
     objects w !! this = Some p → m_processorHandle res = m_handle p →
     shutdown this w = Some (w1, e) →
     setCompleted res w1 = Some (w1, []) ∧
     setFailed res description w1 = Some (w1, []) ∧
     setCompleted res (destroy this w1) = Some (destroy this w1, []) ∧
     setFailed res description (destroy this w1) = Some (destroy this w1, [])).
Proof.
  split.
  - intros H. unfold setCompleted, setFailed. by rewrite H.
  - intros this p w1 e Hp Hres Hdown.
    assert (m_handleMap w1 !! m_processorHandle res = None) as Hgone.
    { unfold shutdown, call_on in Hdown. rewrite Hp in Hdown. simpl in Hdown.
      rewrite Hp in Hdown. simpl in Hdown.
      destruct (shutdown_locked p) as [[[] p'] e']. simplify_eq/=.
      rewrite Hres. apply lookup_delete_eq. }
    unfold setCompleted, setFailed, destroy. simpl. by rewrite Hgone.
Qed.

Lemma result_without_processor_witness :
  setCompleted {| m_processorHandle := 7%N; m_messageId := "M1" |} world = Some (world, []) ∧
  setFailed {| m_processorHandle := 7%N; m_messageId := "M1" |} "x" world = Some (world, []) ∧
  ∃ w1 e, shutdown 100%N world = Some (w1, e) ∧
          setCompleted {| m_processorHandle := 1%N; m_messageId := "M1" |} (destroy 100%N w1)
            = Some (destroy 100%N w1, []).
Proof.
  pose proof (result_without_processor {| m_processorHandle := 7%N; m_messageId := "M1" |}
                "x" world) as [H _].
  pose proof (result_without_processor {| m_processorHandle := 1%N; m_messageId := "M1" |}
                "x" world) as [_ H1].
  split_and!; [by apply H..|].
  destruct (shutdown 100%N world) as [[w1 e]|] eqn:E; [|discriminate E].
  exists w1, e. split; [done|].
  by apply (H1 100%N busy w1 e).
Defined.

Lemma queueAll_clears_slot p :
  m_directiveBeingPreHandled (state_after queueAllDirectivesForCancellationLocked p) = None.
Proof. unfold state_after. by rewrite queueAll_run. Qed.

Lemma removeFromHandlingQueueLocked_slot id p :
  m_directiveBeingPreHandled (state_after (removeFromHandlingQueueLocked id) p)
  = m_directiveBeingPreHandled p.
Proof.
  unfold state_after. rewrite removeFromHandlingQueueLocked_run.
  by destruct (findDirectiveInQueueLocked id (m_handlingQueue p)).
Qed.

Lemma removeFromCancelingQueueLocked_slot id p :
  m_directiveBeingPreHandled (state_after (removeFromCancelingQueueLocked id) p)
  = m_directiveBeingPreHandled p.
Proof.
  unfold state_after. rewrite removeFromCancelingQueueLocked_run.
  by destruct (findDirectiveInQueueLocked id (m_cancelingQueue p)).
Qed.

Lemma shutdown_locked_clears_slot p :
  m_directiveBeingPreHandled (state_after shutdown_locked p) = None.
Proof.
  unfold state_after, shutdown_locked, modify, emit, mbind, Locked_bind.
  by rewrite queueAll_run.
Qed.

Lemma concurrent_section_slot p p' :
  concurrent_section p p' → keeps_or_clears_slot p p'.
Proof.
  unfold keeps_or_clears_slot.
  destruct 1 as [id p|id p|id description p|p|p Hc|p Hh Hf|directive handled policy p].
  - unfold state_after. rewrite setDialogRequestId_run.
    destruct (bool_decide (id = m_dialogRequestId p)); [by left|].
    right. exact (queueAll_clears_slot p).
  - rewrite onHandlingCompleted_run. destruct (isBeingPreHandled id p); [by right|].
    left. destruct (findDirectiveInQueueLocked id (m_handlingQueue p)).
    + apply removeFromHandlingQueueLocked_slot.
    + apply removeFromCancelingQueueLocked_slot.
  - rewrite onHandlingFailed_run. destruct (isBeingPreHandled id p).
    { right. apply queueAll_clears_slot. }
    destruct (findDirectiveInQueueLocked id (m_handlingQueue p)).
    + right. apply queueAll_clears_slot.
    + left. apply removeFromCancelingQueueLocked_slot.
  - right. apply shutdown_locked_clears_slot.
  - by left.
  - by left.
  - destruct (handleDirectiveLocked_return_run directive handled policy p) as (q & _ & Hrun).
    unfold state_after at 1 2. rewrite Hrun.
    destruct (handled && bool_decide (BLOCKING = policy)); [by left|].
    destruct handled; simpl; [by left|]. right. apply queueAll_clears_slot.
Qed.

Lemma concurrent_sections_slot directive p p' :
  rtc concurrent_section p p' →
  m_directiveBeingPreHandled p = Some directive ∨ m_directiveBeingPreHandled p = None →
  m_directiveBeingPreHandled p' = Some directive ∨ m_directiveBeingPreHandled p' = None.
Proof.
  induction 1 as [p|p q p' Hstep _ IH]; [done|].
  intros Hp. apply IH.
  destruct (concurrent_section_slot _ _ Hstep) as [->| ->]; [done|by right].
Qed.

(** The worker's two functions are made of the sections listed in
    [concurrent_section], as long as the same holds of what happens
    during their router calls. *)
Lemma for_each_cancelDirective_sections r l p :
  (∀ d q, rtc concurrent_section q (cancelDirective r d q)) →
  rtc concurrent_section p (state_after (for_each (unlocked_cancelDirective r) l) p).
Proof.
  intros Hr. revert p. induction l as [|d l IH]; intros p; [done|].
  unfold state_after in *. simpl.
  unfold mbind, Locked_bind, unlocked_cancelDirective at 1.
  specialize (IH (cancelDirective r d p)).
  destruct (for_each (unlocked_cancelDirective r) l (cancelDirective r d p))
    as [[[] p2] e2]. simpl in *.
  by trans (cancelDirective r d p).
Qed.

Lemma processCancelingQueueLocked_sections r p :
  (∀ d q, rtc concurrent_section q (cancelDirective r d q)) →
  rtc concurrent_section p (state_after (processCancelingQueueLocked r) p).
Proof.
  intros Hr. unfold state_after, processCancelingQueueLocked, get, modify, mbind, Locked_bind.
  case_bool_decide as Hc; [done|]. simpl.
  pose proof (for_each_cancelDirective_sections r (m_cancelingQueue p)
                (with_cancelingQueue [] p) Hr) as Hfor.
  unfold state_after in Hfor.
  destruct (for_each (unlocked_cancelDirective r) (m_cancelingQueue p)
              (with_cancelingQueue [] p)) as [[[] p2] e2]. simpl in *.
  eapply rtc_l; [by apply section_processCancelingQueue|done].
Qed.

Lemma handleDirectiveLocked_sections r p :
  (∀ d q, rtc concurrent_section q (handleDirective r d q).2) →
  rtc concurrent_section p (state_after (handleDirectiveLocked r) p).
Proof.
  intros Hr. unfold state_after, handleDirectiveLocked, unlocked_handleDirective,
    get, modify, mbind, Locked_bind.
  destruct (m_handlingQueue p) as [|d rest] eqn:Hq; [done|].
  destruct (m_isHandlingDirective p) eqn:Hf; [done|]. simpl.
  specialize (Hr d (with_isHandlingDirective true p)).
  destruct (handleDirective r d (with_isHandlingDirective true p)) as [[handled written] p1].
  pose proof (section_handleDirective_return d handled (default NONE written) p1) as Hret.
  unfold state_after in Hret.
  destruct (handleDirectiveLocked_return d handled (default NONE written) p1)
    as [[v p2] e2]. simpl in *.
  eapply rtc_l; [apply section_handleDirective_begin; [by rewrite Hq|done]|].
  eapply rtc_r; done.
Qed.

(** C10. Neither cancel-all nor any critical section that can run while
    [onDirective] waits for [preHandleDirective] puts a directive into
    the slot: each leaves the slot as it was or empties it.  So when [onDirective], which filled
    the slot with its directive, takes the lock again, the slot holds
    that very directive or nothing, and testing the slot for being
    occupied gives what testing it for holding this directive gives. *)
Theorem slot_assigned_by_onDirective_only :
  (∀ p, keeps_or_clears_slot p (state_after queueAllDirectivesForCancellationLocked p)) ∧
  (∀ p p', concurrent_section p p' → keeps_or_clears_slot p p') ∧
  (∀ directive p relocked,
     rtc concurrent_section (with_directiveBeingPreHandled (Some directive) p) relocked →
     (is_Some (m_directiveBeingPreHandled relocked) →
      m_directiveBeingPreHandled relocked = Some directive) ∧
     (∀ handled,
        onDirective_return directive handled relocked =
        onDirective_return_spec directive handled relocked)).
Proof.
  split; [intros p; right; apply queueAll_clears_slot|].
  split; [exact concurrent_section_slot|].
  intros directive p relocked Hrtc.
  pose proof (concurrent_sections_slot directive _ _ Hrtc (or_introl eq_refl)) as Hslot.
  split.
  - intros [held Hheld]. destruct Hslot as [?|Hnone]; [done|]. congruence.
  - intros handled. unfold onDirective_return, onDirective_return_spec, get, mbind, Locked_bind.
    destruct Hslot as [->| ->]; simpl; [|done].
    unfold same_pointer. by rewrite bool_decide_eq_true_2.
Qed.

Lemma slot_assigned_by_onDirective_only_witness :
  onDirective_return M1 true
    (state_after (onHandlingCompleted "M1") (with_directiveBeingPreHandled (Some M1) idle))
  = onDirective_return_spec M1 true
      (state_after (onHandlingCompleted "M1") (with_directiveBeingPreHandled (Some M1) idle))
  ∧ onDirective_return M1 true
      (state_after (onHandlingCompleted "M2") (with_directiveBeingPreHandled (Some M1) waiting))
    = onDirective_return_spec M1 true
        (state_after (onHandlingCompleted "M2") (with_directiveBeingPreHandled (Some M1) waiting)).
Proof.
  destruct slot_assigned_by_onDirective_only as (_ & _ & H).
  split.
  - apply (H M1 idle). apply rtc_once. constructor.
  - apply (H M1 waiting). apply rtc_once. constructor.
Defined.

(** ** What a critical section can do *)

Lemma shutdown_locked_run p :
  shutdown_locked p =
  (tt, canceled "" true p,
   events queueAllDirectivesForCancellationLocked p ++ [notify_one]).
Proof.
  unfold shutdown_locked, canceled, state_after, events, modify, emit, mbind, Locked_bind.
  rewrite queueAll_run. simpl. by rewrite ?app_nil_r.
Qed.

Lemma onDirective_return_run directive handled p :
  onDirective_return directive handled p =
  match m_directiveBeingPreHandled p with
  | Some _ =>
      if handled
      then (true, with_handlingQueue (m_handlingQueue p ++ [directive])
                    (with_directiveBeingPreHandled None p), [notify_one])
      else (false, with_directiveBeingPreHandled None p, [])
  | None => (handled, p, [])
  end.
Proof.
  destruct p as [h dlg [held|] hq cq flag down], handled; reflexivity.
Qed.

Lemma shrinks_refl p : shrinks p p.
Proof. unfold shrinks, keeps_or_clears_slot. split_and!; auto. Qed.

Lemma shrinks_slot_cleared p : shrinks p (with_directiveBeingPreHandled None p).
Proof. unfold shrinks, keeps_or_clears_slot, flag_has_front. simpl. split_and!; auto. Qed.

Lemma shrinks_handling_removed i p :
  shrinks p (with_handlingQueue (delete i (m_handlingQueue p))
               (with_isHandlingDirective
                  (flag_after_removal i (m_isHandlingDirective p)) p)).
Proof.
  unfold shrinks, keeps_or_clears_slot, flag_has_front. simpl.
  split_and!; auto using sublist_delete.
  - intros Hp Hf. destruct i as [|i]; [done|]. simpl in Hf.
    destruct (m_handlingQueue p); [by destruct (Hp Hf)|done].
  - destruct i; [done|]. auto.
Qed.

Lemma shrinks_canceling_removed i p :
  shrinks p (with_cancelingQueue (delete i (m_cancelingQueue p)) p).
Proof.
  unfold shrinks, keeps_or_clears_slot, flag_has_front. simpl.
  split_and!; auto using sublist_delete.
Qed.

Lemma shrinks_canceling_taken p : shrinks p (with_cancelingQueue [] p).
Proof.
  unfold shrinks, keeps_or_clears_slot, flag_has_front. simpl.
  split_and!; auto using sublist_nil_l.
Qed.

Lemma shrinks_flag_raised p :
  m_handlingQueue p ≠ [] → shrinks p (with_isHandlingDirective true p).
Proof.
  intros Hq. unfold shrinks, keeps_or_clears_slot, flag_has_front. simpl.
  split_and!; auto.
Qed.

Lemma shrinks_popped directive q p :
  popped_if_front directive (m_handlingQueue p) q →
  shrinks p (with_handlingQueue q (with_isHandlingDirective false p)).
Proof.
  intros Hpop. unfold shrinks, keeps_or_clears_slot, flag_has_front. simpl.
  split_and!; auto; try done.
  destruct Hpop as [[(front & rest & -> & _) ->]|[_ ->]]; [|done].
  simpl. by apply sublist_cons.
Qed.

Lemma removeFromHandlingQueueLocked_shrinks id p :
  shrinks p (state_after (removeFromHandlingQueueLocked id) p).
Proof.
  unfold state_after. rewrite removeFromHandlingQueueLocked_run.
  destruct (findDirectiveInQueueLocked id (m_handlingQueue p)); simpl.
  - apply shrinks_handling_removed.
  - apply shrinks_refl.
Qed.

Lemma removeFromCancelingQueueLocked_shrinks id p :
  shrinks p (state_after (removeFromCancelingQueueLocked id) p).
Proof.
  unfold state_after. rewrite removeFromCancelingQueueLocked_run.
  destruct (findDirectiveInQueueLocked id (m_cancelingQueue p)); simpl.
  - apply shrinks_canceling_removed.
  - apply shrinks_refl.
Qed.

Lemma canceled_keeps p :
  state_after queueAllDirectivesForCancellationLocked p
  = canceled "" (m_isShuttingDown p) p.
Proof. unfold canceled, state_after. by rewrite queueAll_run. Qed.

(** Every critical section of another thread either only takes things
    away, or takes things away and then cancels all that is left. *)
Lemma concurrent_section_effect p p' :
  concurrent_section p p' →
  shrinks p p' ∨
  ∃ q dialog down,
    shrinks p q ∧ (m_isShuttingDown p = true → down = true) ∧ p' = canceled dialog down q.
Proof.
  destruct 1 as [id p|id p|id description p|p|p Hc|p Hh Hf|directive handled policy p].
  - unfold state_after. rewrite setDialogRequestId_run.
    destruct (bool_decide (id = m_dialogRequestId p)); simpl.
    + left. apply shrinks_refl.
    + right. exists p, id, (m_isShuttingDown p). split_and!; [apply shrinks_refl|done|].
      unfold canceled, state_after. by rewrite queueAll_run.
  - left. rewrite onHandlingCompleted_run. destruct (isBeingPreHandled id p).
    { apply shrinks_slot_cleared. }
    destruct (findDirectiveInQueueLocked id (m_handlingQueue p)).
    + apply removeFromHandlingQueueLocked_shrinks.
    + apply removeFromCancelingQueueLocked_shrinks.
  - rewrite onHandlingFailed_run. destruct (isBeingPreHandled id p).
    { right. exists (with_directiveBeingPreHandled None p), "", (m_isShuttingDown p).
      split_and!; [apply shrinks_slot_cleared|done|].
      exact (canceled_keeps (with_directiveBeingPreHandled None p)). }
    destruct (findDirectiveInQueueLocked id (m_handlingQueue p)).
    + right. exists (state_after (removeFromHandlingQueueLocked id) p), "",
        (m_isShuttingDown p).
      pose proof (removeFromHandlingQueueLocked_shrinks id p) as Hs.
      split_and!; [done|done|]. rewrite canceled_keeps.
      by destruct Hs as (_ & _ & -> & _).
    + left. apply removeFromCancelingQueueLocked_shrinks.
  - right. exists p, "", true. split_and!; [apply shrinks_refl|done|].
    unfold state_after. by rewrite shutdown_locked_run.
  - left. apply shrinks_canceling_taken.
  - left. by apply shrinks_flag_raised.
  - destruct (handleDirectiveLocked_return_run directive handled policy p) as (q & Hpop & Hrun).
    unfold state_after. rewrite Hrun.
    destruct (handled && bool_decide (BLOCKING = policy)); simpl.
    { left. apply shrinks_refl. }
    destruct handled; simpl.
    + left. by eapply shrinks_popped.
    + right. exists (with_handlingQueue q (with_isHandlingDirective false p)), "",
        (m_isShuttingDown p).
      split_and!; [by eapply shrinks_popped|done|].
      exact (canceled_keeps (with_handlingQueue q (with_isHandlingDirective false p))).
Qed.

(** ** Invariants of the reachable states *)

Lemma step_flag_has_front s s' : step s s' → flag_has_front s.2 → flag_has_front s'.2.
Proof.
  destruct 1 as [pending p p' Hc|directive p Hup Hdlg|directive handled p]; simpl.
  - destruct (concurrent_section_effect _ _ Hc)
      as [Hs|(q & dialog & down & _ & _ & ->)].
    + by destruct Hs as (_ & _ & _ & _ & _ & _ & H & _).
    + intros _. unfold flag_has_front, canceled, state_after.
      by rewrite queueAll_run.
  - done.
  - unfold state_after. rewrite onDirective_return_run. unfold flag_has_front.
    destruct (m_directiveBeingPreHandled p); [|done].
    destruct handled; simpl; [|done].
    intros _ _ [_ [=]]%app_eq_nil.
Qed.

Lemma step_drained_once_stopped s s' :
  step s s' → drained_once_stopped s.2 → drained_once_stopped s'.2.
Proof.
  destruct 1 as [pending p p' Hc|directive p Hup Hdlg|directive handled p]; simpl.
  - destruct (concurrent_section_effect _ _ Hc)
      as [Hs|(q & dialog & down & _ & _ & ->)].
    + destruct Hs as (_ & _ & Hdown & Hslot & Hhq & _ & _ & Hflag).
      unfold drained_once_stopped. rewrite Hdown. intros Hp Hd.
      destruct (Hp Hd) as (Eh & Es & Ef). rewrite Eh in Hhq, Hflag.
      apply sublist_nil_r in Hhq. split_and!; [done| |].
      * destruct Hslot as [->| ->]; done.
      * destruct (m_isHandlingDirective p'); [|done].
        destruct Hflag as [?|?]; [done|congruence|done].
    + intros _ _. unfold canceled, state_after. by rewrite queueAll_run.
  - unfold drained_once_stopped. simpl. congruence.
  - unfold state_after, drained_once_stopped. rewrite onDirective_return_run.
    intros Hp. destruct (m_directiveBeingPreHandled p) eqn:Es.
    + destruct handled; simpl; intros Hd; by destruct (Hp Hd) as (_ & [=] & _).
    + simpl. intros Hd. rewrite Es. by destruct (Hp Hd) as (? & _ & ?).
Qed.

Lemma step_stays_stopped s s' :
  step s s' → m_isShuttingDown s.2 = true → m_isShuttingDown s'.2 = true.
Proof.
  destruct 1 as [pending p p' Hc|directive p Hup Hdlg|directive handled p]; simpl.
  - destruct (concurrent_section_effect _ _ Hc)
      as [Hs|(q & dialog & down & _ & Hd & ->)].
    + destruct Hs as (_ & _ & -> & _). done.
    + intros H. by rewrite (Hd H).
  - done.
  - unfold state_after. rewrite onDirective_return_run.
    by destruct (m_directiveBeingPreHandled p), handled.
Qed.

Lemma step_dialog s s' :
  step s s' →
  slot_is_pending s ∧ of_current_dialog s.2 →
  slot_is_pending s' ∧ of_current_dialog s'.2.
Proof.
  destruct 1 as [pending p p' Hc|directive p Hup Hdlg|directive handled p];
    unfold slot_is_pending, of_current_dialog; simpl; intros [Hpend Hdialog].
  - destruct (concurrent_section_effect _ _ Hc)
      as [Hs|(q & dialog & down & _ & _ & ->)].
    + destruct Hs as (_ & -> & _ & Hslot & Hhq & _). split.
      * destruct Hslot as [->| ->]; auto.
      * intros d Hd. apply Hdialog. rewrite elem_of_app in *.
        destruct Hd as [Hd|Hd]; [left; by eapply elem_of_sublist|].
        destruct Hslot as [<-|E]; [by right|]. rewrite E in Hd. by apply elem_of_nil in Hd.
    + unfold canceled, state_after. rewrite queueAll_run. simpl. split; [by right|].
      by intros d ?%elem_of_nil.
  - split; [by left|]. intros d. rewrite elem_of_app. simpl.
    intros [Hd|Hd%list_elem_of_singleton]; [|by subst].
    apply Hdialog. rewrite elem_of_app. by left.
  - unfold state_after. rewrite onDirective_return_run.
    destruct (m_directiveBeingPreHandled p) as [held|] eqn:Es;
      [|simpl; rewrite Es; split; [by right|exact Hdialog]].
    assert (held = directive) as -> by (destruct Hpend; congruence).
    destruct handled; simpl; (split; [by right|]); intros d; rewrite ?app_nil_r;
      rewrite ?elem_of_app; intros Hd; apply Hdialog; rewrite elem_of_app; simpl.
    + destruct Hd as [?|Hd]; [by left|by right].
    + by left.
Qed.

Lemma reachable_ind (P : option Directive * Processor → Prop) handle :
  P (None, new_processor handle) →
  (∀ s s', step s s' → P s → P s') →
  ∀ s, reachable handle s → P s.
Proof.
  intros H0 Hstep s Hs. unfold reachable in Hs.
  apply rtc_nsteps in Hs as [n Hn]. revert s Hn.
  induction n as [|n IH]; intros s Hn.
  - by inversion Hn; subst.
  - apply nsteps_inv_r in Hn as (s1 & Hn & Hlast). eapply Hstep; eauto.
Qed.

Lemma new_processor_reachable handle : reachable handle (None, new_processor handle).
Proof. apply rtc_refl. Qed.

(** [busy] is reached by three calls of [onDirective], the third of
    which is at the router, and a dispatch of the worker. *)
Lemma busy_reachable : reachable 1%N (Some M3, busy).
Proof.
  unfold reachable.
  eapply rtc_l; [exact (step_concurrent None _ _ (section_setDialogRequestId "D" _))|].
  eapply rtc_l; [by apply (step_onDirective_begin M1)|].
  eapply rtc_l; [exact (step_onDirective_return M1 true _)|].
  eapply rtc_l; [by apply (step_onDirective_begin M2)|].
  eapply rtc_l; [exact (step_onDirective_return M2 true _)|].
  eapply rtc_l; [apply step_concurrent, section_handleDirective_begin; done|].
  eapply rtc_l; [by apply (step_onDirective_begin M3)|].
  apply rtc_refl.
Qed.

(** X1. In every state a processor can reach, a set handling flag comes
    with a non-empty handling queue. *)
Theorem handling_flag_has_front handle s :
  reachable handle s → flag_has_front s.2.
Proof.
  revert s. apply (reachable_ind (λ s, flag_has_front s.2)); [done|].
  apply step_flag_has_front.
Qed.

Lemma handling_flag_has_front_witness :
  m_isHandlingDirective busy = true ∧ m_handlingQueue busy ≠ [].
Proof.
  split; [reflexivity|].
  exact (handling_flag_has_front 1%N (Some M3, busy) busy_reachable eq_refl).
Defined.

(** X2. In every state a processor can reach, a processor that is
    shutting down has an empty handling queue, an empty slot and a clear
    handling flag; and it is still shutting down in every state reached
    from there. *)
Theorem stopped_processor_stays_drained handle s :
  reachable handle s →
  drained_once_stopped s.2 ∧
  ∀ s', rtc step s s' → m_isShuttingDown s.2 = true → m_isShuttingDown s'.2 = true.
Proof.
  intros H. split.
  - revert s H. apply (reachable_ind (λ s, drained_once_stopped s.2)); [done|].
    apply step_drained_once_stopped.
  - clear H. intros s' Hs'. induction Hs' as [|x y z Hstep _ IH]; [done|].
    intros Hx. apply IH. by eapply step_stays_stopped.
Qed.

Lemma stopped_processor_stays_drained_witness :
  m_isShuttingDown (state_after shutdown_locked busy) = true ∧
  m_handlingQueue (state_after shutdown_locked busy) = [] ∧
  m_directiveBeingPreHandled (state_after shutdown_locked busy) = None ∧
  m_isHandlingDirective (state_after shutdown_locked busy) = false.
Proof.
  split; [reflexivity|].
  apply (stopped_processor_stays_drained 1%N (Some M3, state_after shutdown_locked busy));
    [|reflexivity].
  eapply rtc_r; [exact busy_reachable|].
  exact (step_concurrent _ _ _ (section_shutdown busy)).
Defined.

(** X3. In every state a processor can reach, the directives of the
    handling queue and of the slot carry the processor's current dialog
    request id, and the slot holds nothing but the directive of the
    [onDirective] call under way. *)
Theorem waiting_directives_of_current_dialog handle s :
  reachable handle s → of_current_dialog s.2 ∧ slot_is_pending s.
Proof.
  intros H.
  cut (slot_is_pending s ∧ of_current_dialog s.2); [tauto|].
  revert s H. apply (reachable_ind (λ s, slot_is_pending s ∧ of_current_dialog s.2)).
  - split; [by left|]. by intros d ?%elem_of_nil.
  - apply step_dialog.
Qed.

Lemma waiting_directives_of_current_dialog_witness :
  dialogRequestId M2 = m_dialogRequestId busy ∧
  dialogRequestId M3 = m_dialogRequestId busy.
Proof.
  destruct (waiting_directives_of_current_dialog 1%N (Some M3, busy) busy_reachable)
    as [H _].
  split; apply H; simpl; set_solver.
Defined.

(** ** What the processor tracks *)

Lemma shrinks_tracked p q : shrinks p q → tracked q `sublist_of` tracked p.
Proof.
  intros (_ & _ & _ & Hslot & Hhq & Hcq & _). unfold tracked.
  apply sublist_app; [done|]. apply sublist_app; [done|].
  destruct Hslot as [->| ->]; [done|apply sublist_nil_l].
Qed.

Lemma canceled_tracked dialog down q : tracked (canceled dialog down q) = tracked q.
Proof.
  unfold canceled, state_after, tracked. rewrite queueAll_run. simpl.
  by rewrite app_nil_r.
Qed.

Lemma concurrent_section_tracked p p' :
  concurrent_section p p' →
  tracked p' `sublist_of` tracked p ∧
  m_handlingQueue p' `sublist_of` m_handlingQueue p.
Proof.
  intros [Hs|(q & dialog & down & Hs & _ & ->)]%concurrent_section_effect.
  - split; [by apply shrinks_tracked|]. by destruct Hs as (_ & _ & _ & _ & ? & _).
  - rewrite canceled_tracked. split; [by apply shrinks_tracked|].
    unfold canceled, state_after. rewrite queueAll_run. apply sublist_nil_l.
Qed.

Lemma concurrent_sections_tracked p p' :
  rtc concurrent_section p p' →
  tracked p' `sublist_of` tracked p ∧
  m_handlingQueue p' `sublist_of` m_handlingQueue p.
Proof.
  induction 1 as [|p q p' Hstep _ [IH1 IH2]]; [done|].
  destruct (concurrent_section_tracked _ _ Hstep) as [H1 H2].
  split; etrans; eauto.
Qed.

Lemma onDirective_run r directive p :
  onDirective r (Some directive) p =
  if m_isShuttingDown p then (false, p, [])
  else if negb (bool_decide (dialogRequestId directive = m_dialogRequestId p))
  then (true, p, [])
  else
    let sink := new_DirectiveHandlerResult (m_handle p) directive in
    let '(handled, relocked) :=
      preHandleDirective r directive sink
        (with_directiveBeingPreHandled (Some directive) p) in
    let '(v, q, e) := onDirective_return directive handled relocked in
    (v, q, call_preHandleDirective directive sink :: e).
Proof.
  unfold onDirective, unlocked_preHandleDirective, get, modify, mbind, Locked_bind.
  destruct (m_isShuttingDown p); [done|].
  destruct (negb _); [done|]. simpl.
  destruct (preHandleDirective r directive _ _) as [handled relocked].
  by destruct (onDirective_return directive handled relocked) as [[v q] e].
Qed.

(** X4. The critical sections of other threads never add a directive to
    what the processor tracks (canceling queue, then handling queue,
    then slot) and never reorder it: what is tracked afterwards is a
    subsequence of what was tracked before, and so is the handling
    queue.  A call of [onDirective] that finds the slot empty adds at
    most its own directive, behind everything else, and to the handling
    queue only at the back; if the tracked directives and the new one
    are pairwise distinct before the call, the tracked directives are
    pairwise distinct after it. *)
Theorem tracked_never_grows :
  (∀ p p', rtc concurrent_section p p' →
     tracked p' `sublist_of` tracked p ∧
     m_handlingQueue p' `sublist_of` m_handlingQueue p) ∧
  (∀ r directive p,
     m_directiveBeingPreHandled p = None →
     (∀ res q, rtc concurrent_section q (preHandleDirective r directive res q).2) →
     let p' := state_after (onDirective r (Some directive)) p in
     tracked p' `sublist_of` tracked p ++ [directive] ∧
     m_handlingQueue p' `sublist_of` m_handlingQueue p ++ [directive] ∧
     (NoDup (tracked p ++ [directive]) → NoDup (tracked p'))).
Proof.
  split; [exact concurrent_sections_tracked|].
  intros r directive p Hempty Hr p'.
  assert (tracked p' `sublist_of` tracked p ++ [directive] ∧
          m_handlingQueue p' `sublist_of` m_handlingQueue p ++ [directive]) as [Hsub Hhq];
    [|split_and!; [done..|intros Hnd; by eapply sublist_NoDup]].
  subst p'. unfold state_after. rewrite onDirective_run.
  destruct (m_isShuttingDown p); [split; by apply sublist_inserts_r|].
  destruct (negb _); [split; by apply sublist_inserts_r|]. cbv zeta.
  set (sink := new_DirectiveHandlerResult (m_handle p) directive).
  set (unlocked := with_directiveBeingPreHandled (Some directive) p).
  pose proof (Hr sink unlocked) as Hwin.
  destruct (preHandleDirective r directive sink unlocked) as [handled relocked].
  simpl in Hwin.
  destruct (concurrent_sections_tracked _ _ Hwin) as [Hrel Hrelq].
  pose proof (concurrent_sections_slot directive _ _ Hwin (or_introl eq_refl)) as Hslot.
  assert (tracked unlocked = tracked p ++ [directive]) as Hun.
  { unfold tracked, unlocked. simpl. rewrite Hempty. simpl.
    by rewrite app_nil_r, app_assoc. }
  rewrite Hun in Hrel. change (m_handlingQueue unlocked) with (m_handlingQueue p) in Hrelq.
  rewrite onDirective_return_run.
  destruct (m_directiveBeingPreHandled relocked) as [held|] eqn:Es.
  - assert (held = directive) as -> by (destruct Hslot; congruence).
    unfold tracked in Hrel. rewrite Es in Hrel. simpl in Hrel.
    destruct handled; simpl; unfold tracked; simpl; rewrite app_nil_r.
    + split; [done|]. by apply sublist_app.
    + split; [|by apply sublist_inserts_r].
      etrans; [|exact Hrel]. apply sublist_app; [done|]. by apply sublist_inserts_r.
  - simpl. split; [done|]. by apply sublist_inserts_r.
Qed.

Lemma completing_windows directive res q :
  rtc concurrent_section q (preHandleDirective completing directive res q).2.
Proof. apply rtc_once. simpl. constructor. Qed.

Lemma tracked_never_grows_witness :
  tracked (state_after (onDirective completing (Some M4)) waiting)
    `sublist_of` tracked waiting ++ [M4] ∧
  NoDup (tracked (state_after (onDirective completing (Some M4)) waiting)).
Proof.
  destruct tracked_never_grows as [_ H].
  destruct (H completing M4 waiting eq_refl (completing_windows M4)) as (Hsub & _ & Hnd).
  split; [exact Hsub|]. apply Hnd.
  unfold tracked. simpl.
  repeat (apply NoDup_cons; split); [..|apply NoDup_nil_2];
    intros H';
    repeat (apply elem_of_cons in H' as [H'|H']; [discriminate H'|]);
    by apply elem_of_nil in H'.
Defined.

(** ** The worker *)

Lemma for_each_cancelDirective_events r l p :
  events (for_each (unlocked_cancelDirective r) l) p = call_cancelDirective <$> l.
Proof.
  revert p. induction l as [|d l IH]; intros p; [done|].
  unfold events in *. simpl.
  unfold mbind, Locked_bind, unlocked_cancelDirective at 1.
  specialize (IH (cancelDirective r d p)).
  destruct (for_each (unlocked_cancelDirective r) l (cancelDirective r d p))
    as [[[] p2] e2]. simpl in *. by rewrite IH.
Qed.

Lemma for_each_cancelDirective_quiet r l p :
  (∀ d q, cancelDirective r d q = q) →
  state_after (for_each (unlocked_cancelDirective r) l) p = p.
Proof.
  intros Hr. induction l as [|d l IH]; [done|].
  unfold state_after in *. simpl.
  unfold mbind, Locked_bind, unlocked_cancelDirective at 1. rewrite Hr.
  by destruct (for_each (unlocked_cancelDirective r) l p) as [[[] p2] e2].
Qed.

Lemma processCancelingQueueLocked_run r p :
  processCancelingQueueLocked r p =
  if bool_decide (m_cancelingQueue p = []) then (false, p, [])
  else (true,
        state_after (for_each (unlocked_cancelDirective r) (m_cancelingQueue p))
          (with_cancelingQueue [] p),
        call_cancelDirective <$> m_cancelingQueue p).
Proof.
  unfold processCancelingQueueLocked, get, modify, mbind, mret, Locked_bind, Locked_ret.
  destruct (bool_decide (m_cancelingQueue p = [])); [done|]. simpl.
  pose proof (for_each_cancelDirective_events r (m_cancelingQueue p)
                (with_cancelingQueue [] p)) as He.
  unfold state_after, events in *.
  destruct (for_each (unlocked_cancelDirective r) (m_cancelingQueue p)
              (with_cancelingQueue [] p)) as [[[] p2] e2].
  simpl in *. by rewrite app_nil_r, He.
Qed.

(** X5. [processCancelingQueueLocked] calls the router's
    [cancelDirective] once for each directive of the canceling queue, in
    queue order, and nothing else; it returns false exactly when the
    queue was empty, in which case the processor is left as it was; if
    the router calls leave the processor alone, the canceling queue is
    empty afterwards and nothing else has changed. *)
Theorem cancel_calls_follow_queue_order r p :
  events (processCancelingQueueLocked r) p = call_cancelDirective <$> m_cancelingQueue p ∧
  result (processCancelingQueueLocked r) p = negb (bool_decide (m_cancelingQueue p = [])) ∧
  (m_cancelingQueue p = [] → state_after (processCancelingQueueLocked r) p = p) ∧
  ((∀ d q, cancelDirective r d q = q) →
   state_after (processCancelingQueueLocked r) p = with_cancelingQueue [] p).
Proof.
  unfold events, result, state_after. rewrite processCancelingQueueLocked_run.
  case_bool_decide as Hc; simpl.
  - rewrite Hc. split_and!; try done. intros _. destruct p; simpl in *. by subst.
  - split_and!; try done. intros Hr. by apply for_each_cancelDirective_quiet.
Qed.

Lemma cancel_calls_follow_queue_order_witness :
  state_after (processCancelingQueueLocked accepting) idle = idle ∧
  state_after (processCancelingQueueLocked accepting) canceling
  = with_cancelingQueue [] canceling.
Proof.
  split.
  - by apply (cancel_calls_follow_queue_order accepting idle).
  - by apply (cancel_calls_follow_queue_order accepting canceling).
Defined.

Lemma handleDirectiveLocked_run r p :
  handleDirectiveLocked r p =
  match m_handlingQueue p with
  | [] => (false, p, [])
  | front :: _ =>
      if m_isHandlingDirective p then (true, p, [])
      else
        let '(handled, written, relocked) :=
          handleDirective r front (with_isHandlingDirective true p) in
        let '(v, q, e) :=
          handleDirectiveLocked_return front handled (default NONE written) relocked in
        (v, q, call_handleDirective front :: e)
  end.
Proof.
  unfold handleDirectiveLocked, unlocked_handleDirective, get, modify, mbind, Locked_bind.
  destruct (m_handlingQueue p) as [|front rest]; [done|].
  destruct (m_isHandlingDirective p); [done|]. simpl.
  destruct (handleDirective r front _) as [[handled written] relocked].
  by destruct (handleDirectiveLocked_return front handled _ relocked) as [[v q] e].
Qed.

Lemma handleDirectiveLocked_return_outcome directive handled policy p :
  result (handleDirectiveLocked_return directive handled policy) p = true ∧
  Forall (λ x, x = notify_one) (events (handleDirectiveLocked_return directive handled policy) p).
Proof.
  destruct (handleDirectiveLocked_return_run directive handled policy p) as (q & _ & Hrun).
  unfold result, events. rewrite Hrun.
  destruct (handled && bool_decide (BLOCKING = policy)); [by split|].
  destruct handled; simpl; [by split|]. split; [done|].
  unfold events. rewrite queueAll_run. simpl.
  case_bool_decide; by repeat constructor.
Qed.

Lemma handleDirectiveLocked_outcomes r p :
  (m_handlingQueue p = [] → handleDirectiveLocked r p = (false, p, [])) ∧
  (m_handlingQueue p ≠ [] → result (handleDirectiveLocked r) p = true) ∧
  (m_handlingQueue p ≠ [] → m_isHandlingDirective p = true →
   handleDirectiveLocked r p = (true, p, [])) ∧
  (∀ front rest,
     m_handlingQueue p = front :: rest → m_isHandlingDirective p = false →
     ∃ wakes, events (handleDirectiveLocked r) p = call_handleDirective front :: wakes ∧
              Forall (λ x, x = notify_one) wakes).
Proof.
  unfold result, events. rewrite handleDirectiveLocked_run.
  destruct (m_handlingQueue p) as [|front rest]; [by split_and!|].
  destruct (m_isHandlingDirective p) eqn:Hf.
  { split_and!; try done. }
  destruct (handleDirective r front _) as [[handled written] relocked].
  pose proof (handleDirectiveLocked_return_outcome front handled (default NONE written)
                relocked) as [Hres Hev].
  unfold result, events in *.
  destruct (handleDirectiveLocked_return front handled _ relocked) as [[v q] e].
  simpl in *. split_and!; try done.
  intros f rs [= <- <-] _. by exists e.
Qed.

(** X6. [handleDirectiveLocked] returns false exactly when the handling
    queue is empty, and then does nothing; while the handling flag is
    set it returns true without a router call and without a change; and
    otherwise it makes one router call, [handleDirective] on the front
    of the handling queue, after which it only notifies. *)
Theorem dispatch_is_front_and_single r p :
  (m_handlingQueue p = [] → handleDirectiveLocked r p = (false, p, [])) ∧
  (m_handlingQueue p ≠ [] → result (handleDirectiveLocked r) p = true) ∧
  (m_handlingQueue p ≠ [] → m_isHandlingDirective p = true →
   handleDirectiveLocked r p = (true, p, [])) ∧
  (∀ front rest,
     m_handlingQueue p = front :: rest → m_isHandlingDirective p = false →
     ∃ wakes, events (handleDirectiveLocked r) p = call_handleDirective front :: wakes ∧
              Forall (λ x, x = notify_one) wakes).
Proof. exact (handleDirectiveLocked_outcomes r p). Qed.

Lemma dispatch_is_front_and_single_witness :
  handleDirectiveLocked accepting idle = (false, idle, []) ∧
  handleDirectiveLocked accepting busy = (true, busy, []) ∧
  ∃ wakes, events (handleDirectiveLocked refusing) waiting = call_handleDirective M1 :: wakes ∧
           Forall (λ x, x = notify_one) wakes.
Proof.
  split_and!.
  - by apply (dispatch_is_front_and_single accepting idle).
  - by apply (dispatch_is_front_and_single accepting busy).
  - destruct (dispatch_is_front_and_single refusing waiting) as (_ & _ & _ & H).
    by apply (H M1 [M2]).
Defined.

Lemma processingLoop_pass_run r p :
  processingLoop_pass r p =
  if bool_decide (m_cancelingQueue p = [])
  then
    let '(handling, q, e) := handleDirectiveLocked r p in
    if handling then (false, q, e) else (m_isShuttingDown q, q, e)
  else
    (false,
     state_after (for_each (unlocked_cancelDirective r) (m_cancelingQueue p))
       (with_cancelingQueue [] p),
     call_cancelDirective <$> m_cancelingQueue p).
Proof.
  unfold processingLoop_pass, mbind, mret, Locked_bind, Locked_ret, get.
  rewrite processCancelingQueueLocked_run.
  destruct (bool_decide (m_cancelingQueue p = [])); simpl.
  - destruct (handleDirectiveLocked r p) as [[[] q] e]; simpl; by rewrite ?app_nil_r.
  - by rewrite app_nil_r.
Qed.

(** X7. One pass of the worker leaves the loop exactly when the
    canceling queue and the handling queue are empty and the processor
    is shutting down; such a pass calls no router function and changes
    nothing. *)
Theorem worker_leaves_only_when_drained r p :
  (result (processingLoop_pass r) p = true ↔
   m_cancelingQueue p = [] ∧ m_handlingQueue p = [] ∧ m_isShuttingDown p = true) ∧
  (result (processingLoop_pass r) p = true → processingLoop_pass r p = (true, p, [])).
Proof.
  unfold result. rewrite processingLoop_pass_run.
  pose proof (handleDirectiveLocked_outcomes r p) as (Hempty & Hres & _).
  unfold result in Hres.
  case_bool_decide as Hc; simpl.
  - destruct (m_handlingQueue p) as [|front rest] eqn:Hq.
    + rewrite Hempty by done. simpl. split; [|by intros ->]. split; [done|by intros (_ & _ & ?)].
    + assert ((handleDirectiveLocked r p).1.1 = true) as Ht by (by apply Hres).
      destruct (handleDirectiveLocked r p) as [[handling q] e]. simpl in Ht. subst handling.
      simpl. split; [|done]. split; [done|by intros (_ & [=] & _)].
  - split; [|done]. split; [done|by intros (? & _)].
Qed.

Lemma worker_leaves_only_when_drained_witness :
  processingLoop_pass accepting stopped = (true, stopped, []).
Proof.
  apply (worker_leaves_only_when_drained accepting stopped).
  by apply (worker_leaves_only_when_drained accepting stopped).
Defined.



(** ** Reports that come late or twice *)

Lemma unknown_completed id p : unknown id p → onHandlingCompleted id p = (tt, p, []).
Proof.
  intros (Hs%isBeingPreHandled_false & Hh%absent_find & Hc%absent_find).
  unfold onHandlingCompleted, get, mbind, mret, Locked_bind, Locked_ret.
  rewrite Hs, removeFromHandlingQueueLocked_run, Hh. simpl.
  by rewrite removeFromCancelingQueueLocked_run, Hc.
Qed.

Lemma unknown_failed id description p :
  unknown id p → onHandlingFailed id description p = (tt, p, []).
Proof.
  intros (Hs%isBeingPreHandled_false & Hh%absent_find & Hc%absent_find).
  unfold onHandlingFailed, get, mbind, mret, Locked_bind, Locked_ret.
  rewrite Hs, removeFromHandlingQueueLocked_run, Hh. simpl.
  by rewrite removeFromCancelingQueueLocked_run, Hc.
Qed.

Lemma absent_app id l k : absent id (l ++ k) ↔ absent id l ∧ absent id k.
Proof. apply Forall_app. Qed.

Lemma absent_slot id p :
  absent id (option_list (m_directiveBeingPreHandled p)) ↔ ¬ slot_holds id p.
Proof.
  unfold absent, slot_holds. destruct (m_directiveBeingPreHandled p) as [d|]; simpl.
  - rewrite Forall_singleton. split.
    + by intros Hne (d' & [= <-] & Hid).
    + intros Hno Hid. apply Hno. by exists d.
  - split; [|by constructor]. by intros _ (d' & [=] & _).
Qed.

Lemma unknown_tracked id p : unknown id p ↔ absent id (tracked p).
Proof.
  unfold unknown, tracked. rewrite !absent_app, absent_slot. tauto.
Qed.

(** With distinct message ids, the directive that carries [id] is the
    only one. *)
Lemma unique_id_elsewhere_absent (l k : list Directive) d :
  NoDup (messageId <$> (l ++ d :: k)) → absent (messageId d) (l ++ k).
Proof.
  rewrite fmap_app, fmap_cons. intros Hnd.
  apply NoDup_app in Hnd as (_ & Hl & Hk). apply NoDup_cons in Hk as [Hk _].
  apply absent_app. unfold absent. rewrite !Forall_forall. split.
  - intros x Hx Hid. apply (Hl (messageId x)).
    + apply list_elem_of_fmap. by exists x.
    + rewrite Hid. by left.
  - intros x Hx Hid. apply Hk. apply list_elem_of_fmap. by exists x.
Qed.

Lemma completed_makes_unknown id p :
  NoDup (messageId <$> tracked p) → unknown id (state_after (onHandlingCompleted id) p).
Proof.
  intros Hnd. apply unknown_tracked. rewrite onHandlingCompleted_run.
  destruct (report_cases id p)
    as [((d & Es & Hid) & ->)|[(Hs & -> & i & Eh & Hr)|[(Hs & -> & Hh & Eh & i & Ec & Hr)
                                                        |(Hs & -> & Hh & Hc & Eh & Ec)]]];
    rewrite ?Eh; unfold state_after;
    rewrite ?removeFromHandlingQueueLocked_run, ?removeFromCancelingQueueLocked_run,
      ?Eh, ?Ec; simpl; unfold tracked in *; simpl.
  - rewrite Es in Hnd. simpl in Hnd. rewrite app_assoc in Hnd.
    apply unique_id_elsewhere_absent in Hnd. rewrite Hid in Hnd.
    by rewrite !app_nil_r in *.
  - destruct Hr as (l1 & d & l2 & E1 & E2 & _ & Hid & _). rewrite E2.
    rewrite E1 in Hnd. rewrite <- app_assoc in Hnd. simpl in Hnd.
    rewrite app_assoc in Hnd. apply unique_id_elsewhere_absent in Hnd.
    rewrite Hid in Hnd. by rewrite <- !app_assoc in *.
  - destruct Hr as (l1 & d & l2 & E1 & E2 & _ & Hid & _). rewrite E2.
    rewrite E1 in Hnd. rewrite <- app_assoc in Hnd. simpl in Hnd.
    apply unique_id_elsewhere_absent in Hnd.
    rewrite Hid in Hnd. by rewrite <- !app_assoc in *.
  - rewrite !absent_app, absent_slot. done.
Qed.

(** X9. When the tracked directives have distinct message ids, a report
    that comes after the completion of its directive is ignored: a
    second [onHandlingCompleted], and an [onHandlingFailed], for the same
    message id change nothing, notify nobody and cancel nothing. *)
Theorem late_reports_are_ignored id description p :
  NoDup (messageId <$> tracked p) →
  let p' := state_after (onHandlingCompleted id) p in
  onHandlingCompleted id p' = (tt, p', []) ∧
  onHandlingFailed id description p' = (tt, p', []).
Proof.
  intros Hnd p'. pose proof (completed_makes_unknown id p Hnd) as Hun.
  split; [by apply unknown_completed|by apply unknown_failed].
Qed.

Lemma busy_ids_distinct : NoDup (messageId <$> tracked busy).
Proof.
  unfold tracked. simpl.
  repeat (apply NoDup_cons; split); [..|apply NoDup_nil_2];
    intros H';
    repeat (apply elem_of_cons in H' as [H'|H']; [discriminate H'|]);
    by apply elem_of_nil in H'.
Qed.

Lemma late_reports_are_ignored_witness :
  onHandlingFailed "M1" "late" (state_after (onHandlingCompleted "M1") busy)
  = (tt, state_after (onHandlingCompleted "M1") busy, []).
Proof. exact (proj2 (late_reports_are_ignored "M1" "late" busy busy_ids_distinct)). Defined.

(** Without distinct message ids a repeated report takes out the next
    directive that carries the id. *)
Example repeated_report_with_shared_id :
  let twice := with_handlingQueue [M1; directive_at 5 "M1" "D"] idle in
  state_after (onHandlingCompleted "M1") (state_after (onHandlingCompleted "M1") twice)
  ≠ state_after (onHandlingCompleted "M1") twice.
Proof. discriminate. Qed.

(** ** Composition with cancel-all and shutdown *)

(** X10. After cancel-all on a processor that is not shutting down, and
    likewise on a new processor, [onDirective] drops every directive
    whose dialog request id is not empty, returning true without a
    router call, and passes every directive whose dialog request id is
    empty on to [preHandleDirective]. *)
Theorem cleared_dialog_admits_untagged_only r directive p :
  m_isShuttingDown p = false →
  let q := state_after queueAllDirectivesForCancellationLocked p in
  let sink := new_DirectiveHandlerResult (m_handle p) directive in
  (dialogRequestId directive ≠ "" →
   onDirective r (Some directive) q = (true, q, []) ∧
   onDirective r (Some directive) (new_processor (m_handle p))
   = (true, new_processor (m_handle p), [])) ∧
  (dialogRequestId directive = "" →
   (∃ e, events (onDirective r (Some directive)) q
         = call_preHandleDirective directive sink :: e) ∧
   (∃ e, events (onDirective r (Some directive)) (new_processor (m_handle p))
         = call_preHandleDirective directive sink :: e)).
Proof.
  intros Hup q sink. subst q. unfold events, state_after.
  rewrite !onDirective_run, queueAll_run. simpl. rewrite Hup. split.
  - intros Hne. by rewrite bool_decide_eq_false_2.
  - intros He. rewrite bool_decide_eq_true_2 by done. simpl. fold sink. split.
    + destruct (preHandleDirective r directive sink _) as [handled relocked].
      destruct (onDirective_return directive handled relocked) as [[v q'] e].
      by exists e.
    + destruct (preHandleDirective r directive sink _) as [handled relocked].
      destruct (onDirective_return directive handled relocked) as [[v q'] e].
      by exists e.
Qed.

Lemma cleared_dialog_admits_untagged_only_witness :
  onDirective accepting (Some M4)
    (state_after queueAllDirectivesForCancellationLocked busy)
  = (true, state_after queueAllDirectivesForCancellationLocked busy, []) ∧
  ∃ e, events (onDirective accepting (Some (directive_at 6 "M6" "")))
         (new_processor 1%N)
       = call_preHandleDirective (directive_at 6 "M6" "")
           {| m_processorHandle := 1%N; m_messageId := "M6" |} :: e.
Proof.
  split.
  - apply (cleared_dialog_admits_untagged_only accepting M4 busy); [reflexivity|discriminate].
  - apply (cleared_dialog_admits_untagged_only accepting (directive_at 6 "M6" "") busy);
      reflexivity.
Defined.

(** What the two critical sections of [shutdown] leave, before the
    join. *)
Lemma shutdown_sections_effect this p w :
  objects w !! this = Some p →
  ∃ w1 e p1,
    shutdown this w = Some (w1, e) ∧
    m_handleMap w1 !! m_handle p = None ∧
    (∀ h, h ≠ m_handle p → m_handleMap w1 !! h = m_handleMap w !! h) ∧
    objects w1 !! this = Some p1 ∧
    (∀ a, a ≠ this → objects w1 !! a = objects w !! a) ∧
    m_isShuttingDown p1 = true ∧
    m_cancelingQueue p1 = tracked p ∧
    tracked p1 = tracked p ∧
    m_handle p1 = m_handle p ∧
    last e = Some notify_one.
Proof.
  intros Hp.
  exists {| m_handleMap := delete (m_handle p) (m_handleMap w);
            objects := <[this := canceled "" true p]> (objects w) |},
    (events queueAllDirectivesForCancellationLocked p ++ [notify_one]),
    (canceled "" true p).
  split_and!.
  - unfold shutdown, call_on. rewrite Hp. simpl. rewrite Hp. simpl.
    by rewrite shutdown_locked_run.
  - simpl. apply lookup_delete_eq.
  - intros h Hne. simpl. by apply lookup_delete_ne.
  - simpl. apply lookup_insert_eq.
  - intros a Hne. simpl. by apply lookup_insert_ne.
  - done.
  - unfold canceled, state_after, tracked. by rewrite queueAll_run.
  - apply canceled_tracked.
  - unfold canceled, state_after. by rewrite queueAll_run.
  - apply last_snoc.
Qed.

Lemma processingLoop_unfold r fuel p :
  processingLoop r (S fuel) p =
  if wake p then
    let '(leaves, q, e) := processingLoop_pass r p in
    if leaves then (true, q, e)
    else let '(ended, q', e') := processingLoop r fuel q in (ended, q', e ++ e')
  else (false, p, []).
Proof.
  simpl. unfold get, mbind, mret, Locked_bind, Locked_ret.
  destruct (wake p); [|done].
  destruct (processingLoop_pass r p) as [[[] q] e]; [by rewrite app_nil_r|].
  by destruct (processingLoop r fuel q) as [[ended q'] e'].
Qed.

(** After the critical section of [shutdown], a worker found at its
    [wait] hands the canceling queue to the router and leaves its loop
    within two passes, if the cancel calls leave the processor alone. *)
Lemma processingLoop_after_shutdown r fuel p :
  (∀ d q, cancelDirective r d q = q) →
  processingLoop r (S (S fuel)) (canceled "" true p)
  = (true, with_cancelingQueue [] (canceled "" true p),
     call_cancelDirective <$> tracked p).
Proof.
  intros Hr.
  assert (m_cancelingQueue (canceled "" true p) = tracked p) as Hcq.
  { unfold canceled, state_after, tracked. by rewrite queueAll_run. }
  assert (m_handlingQueue (canceled "" true p) = []) as Hhq.
  { unfold canceled, state_after. by rewrite queueAll_run. }
  assert (∀ q, m_cancelingQueue q = [] → m_handlingQueue q = [] →
               m_isShuttingDown q = true →
               ∀ n, processingLoop r (S n) q = (true, q, [])) as Hexit.
  { intros q Hc Hh Hd n. rewrite processingLoop_unfold.
    unfold wake. rewrite Hd, orb_true_r.
    rewrite processingLoop_pass_run, Hc. simpl.
    rewrite (proj1 (handleDirectiveLocked_outcomes r q) Hh). simpl. by rewrite Hd. }
  destruct (tracked p) as [|d l] eqn:Ht.
  - rewrite Hexit; [|done..]. f_equal. f_equal.
    unfold canceled, state_after in *. rewrite queueAll_run in *. simpl in *.
    by rewrite Hcq.
  - rewrite processingLoop_unfold.
    assert (wake (canceled "" true p) = true) as -> by (unfold wake; simpl; apply orb_true_r).
    rewrite processingLoop_pass_run, Hcq.
    rewrite bool_decide_eq_false_2 by done.
    rewrite for_each_cancelDirective_quiet by done.
    rewrite Hexit; [by rewrite app_nil_r|done..].
Qed.

(** X11. [shutdown] of a live processor, called while its worker waits
    and nothing else runs, with a router whose [cancelDirective] leaves
    the processor alone: the call returns (the worker leaves its loop
    within two passes); it takes the processor's handle, and only that
    handle, out of the handle map and changes that processor's object,
    and only that one; after the one notification of the worker the
    router's [cancelDirective] is called for everything the processor
    tracked, in order, and nothing else is called; the processor is left
    shutting down and tracking nothing. *)
Theorem shutdown_cancels_all_and_joins r fuel this p w :
  objects w !! this = Some p →
  (∀ d q, cancelDirective r d q = q) →
  ∃ w1 p1,
    shutdown_joined r (S (S fuel)) this w
    = Some (w1, events queueAllDirectivesForCancellationLocked p
                ++ notify_one :: (call_cancelDirective <$> tracked p)) ∧
    m_handleMap w1 !! m_handle p = None ∧
    (∀ h, h ≠ m_handle p → m_handleMap w1 !! h = m_handleMap w !! h) ∧
    objects w1 !! this = Some p1 ∧
    (∀ a, a ≠ this → objects w1 !! a = objects w !! a) ∧
    m_isShuttingDown p1 = true ∧
    tracked p1 = [] ∧
    m_isHandlingDirective p1 = false ∧
    m_handle p1 = m_handle p.
Proof.
  intros Hp Hr.
  exists {| m_handleMap := delete (m_handle p) (m_handleMap w);
            objects := <[this := with_cancelingQueue [] (canceled "" true p)]> (objects w) |},
    (with_cancelingQueue [] (canceled "" true p)).
  split_and!.
  - unfold shutdown_joined. rewrite Hp.
    remember (S (S fuel)) as passes eqn:Hpasses. simpl.
    unfold mbind, Locked_bind. rewrite shutdown_locked_run. subst passes.
    rewrite processingLoop_after_shutdown by done.
    by rewrite <- app_assoc.
  - simpl. apply lookup_delete_eq.
  - intros h Hne. simpl. by apply lookup_delete_ne.
  - simpl. apply lookup_insert_eq.
  - intros a Hne. simpl. by apply lookup_insert_ne.
  - done.
  - unfold canceled, state_after, tracked. by rewrite queueAll_run.
  - unfold canceled, state_after. by rewrite queueAll_run.
  - unfold canceled, state_after. by rewrite queueAll_run.
Qed.

Lemma shutdown_cancels_all_and_joins_witness :
  ∃ w1 p1,
    shutdown_joined accepting 2 100%N world
    = Some (w1, [notify_one; notify_one; call_cancelDirective M1;
                 call_cancelDirective M2; call_cancelDirective M3]) ∧
    m_handleMap w1 !! 1%N = None ∧
    objects w1 !! 100%N = Some p1 ∧
    m_isShuttingDown p1 = true ∧
    tracked p1 = [].
Proof.
  destruct (shutdown_cancels_all_and_joins accepting 0 100%N busy world eq_refl
              (λ _ _, eq_refl))
    as (w1 & p1 & H1 & H2 & _ & H3 & _ & H4 & H5 & _).
  exists w1, p1. split_and!; [exact H1|exact H2|exact H3|exact H4|exact H5].
Defined.

Lemma canceled_canceled dialog down p :
  canceled "" true (canceled dialog down p) = canceled "" true p ∧
  events queueAllDirectivesForCancellationLocked (canceled dialog down p) = [].
Proof.
  unfold canceled, state_after, events. rewrite !queueAll_run. simpl.
  by rewrite !app_nil_r.
Qed.

(** X12. A second [shutdown] of a processor (the destructor runs one)
    leaves the handle map and every processor object as the first one
    left them; all it does is notify the worker once more. *)
Theorem shutdown_twice this p w w1 e :
  objects w !! this = Some p →
  shutdown this w = Some (w1, e) →
  shutdown this w1 = Some (w1, [notify_one]).
Proof.
  intros Hp Hdown.
  unfold shutdown, call_on in Hdown. rewrite Hp in Hdown. simpl in Hdown.
  rewrite Hp in Hdown. simpl in Hdown. rewrite shutdown_locked_run in Hdown.
  simplify_eq/=.
  assert (<[this:=canceled "" true p]> (objects w) !! this = Some (canceled "" true p))
    as E by apply lookup_insert_eq.
  unfold shutdown, call_on. simpl. rewrite E. simpl. rewrite shutdown_locked_run.
  destruct (canceled_canceled "" true p) as [-> ->]. simpl.
  assert (m_handle (state_after queueAllDirectivesForCancellationLocked p) = m_handle p)
    as ->.
  { unfold state_after. by rewrite queueAll_run. }
  by rewrite delete_delete_eq, insert_insert_eq.
Qed.

Lemma shutdown_twice_witness :
  ∃ w1 e, shutdown 100%N world = Some (w1, e) ∧
          shutdown 100%N w1 = Some (w1, [notify_one]).
Proof.
  destruct (shutdown 100%N world) as [[w1 e]|] eqn:E; [|discriminate E].
  exists w1, e. split; [done|].
  exact (shutdown_twice 100%N busy world w1 e eq_refl E).
Defined.

Lemma find_front id front rest :
  messageId front = id → findDirectiveInQueueLocked id (front :: rest) = Some 0%nat.
Proof.
  intros Hid. unfold findDirectiveInQueueLocked. simpl.
  by rewrite decide_True.
Qed.

(** X13. While the front of the handling queue blocks (flag set,
    nothing to cancel, no shutdown) the worker's predicate [wake] is
    false.  When the completion of that directive is reported, it
    leaves the queue and the flag is cleared; if a directive waits
    behind it the worker is notified once and [wake] is true, and if
    none waits nobody is notified. *)
Theorem completion_unblocks_successor id p front rest :
  ¬ slot_holds id p →
  m_handlingQueue p = front :: rest →
  messageId front = id →
  m_isHandlingDirective p = true →
  let p' := state_after (onHandlingCompleted id) p in
  (m_cancelingQueue p = [] → m_isShuttingDown p = false → wake p = false) ∧
  p' = with_handlingQueue rest (with_isHandlingDirective false p) ∧
  (rest ≠ [] → events (onHandlingCompleted id) p = [notify_one] ∧ wake p' = true) ∧
  (rest = [] → events (onHandlingCompleted id) p = []).
Proof.
  intros Hs%isBeingPreHandled_false Hq Hid Hf p'. subst p'.
  unfold state_after, events, onHandlingCompleted, get, mbind, mret,
    Locked_bind, Locked_ret.
  rewrite Hs, removeFromHandlingQueueLocked_run, Hq, (find_front id front rest Hid).
  simpl. split_and!.
  - intros Hc Hd. unfold wake. rewrite Hc, Hq, Hf, Hd. done.
  - done.
  - intros Hne. rewrite bool_decide_eq_false_2 by done. split; [done|].
    unfold wake. simpl. rewrite (bool_decide_eq_false_2 (rest = [])) by done.
    simpl. by rewrite orb_true_r.
  - by intros ->.
Qed.

Lemma completion_unblocks_successor_witness :
  wake busy = false ∧
  events (onHandlingCompleted "M1") busy = [notify_one] ∧
  wake (state_after (onHandlingCompleted "M1") busy) = true.
Proof.
  assert (¬ slot_holds "M1" busy) as Hs by (by apply busy_slot_not_M).
  destruct (completion_unblocks_successor "M1" busy M1 [M2] Hs eq_refl eq_refl eq_refl)
    as (Hw & _ & Hn & _).
  destruct Hn as [He Hw']; [done|].
  split_and!; [by apply Hw|exact He|exact Hw'].
Defined.

Lemma pass_drains_canceling_queue r q :
  m_handlingQueue q = [] →
  events (processingLoop_pass r) q = call_cancelDirective <$> m_cancelingQueue q.
Proof.
  intros Hq. unfold events. rewrite processingLoop_pass_run.
  case_bool_decide as Hc; simpl; [|done].
  rewrite (proj1 (handleDirectiveLocked_outcomes r q) Hq). simpl. by rewrite Hc.
Qed.

Lemma pass_after_canceled r dialog down q :
  events (processingLoop_pass r) (canceled dialog down q)
  = call_cancelDirective <$> tracked q.
Proof.
  rewrite pass_drains_canceling_queue.
  - unfold canceled, state_after, tracked. by rewrite queueAll_run.
  - unfold canceled, state_after. by rewrite queueAll_run.
Qed.

(** X14. What a dialog change or a reported failure leads the worker to
    do.  After [setDialogRequestId] with another id, the next pass of
    the worker calls [cancelDirective] for everything that was tracked,
    in order (canceling queue, handling queue, slot), and calls nothing
    else.  After [onHandlingFailed] for the directive of the slot, or
    for a directive of the handling queue, it does so for everything
    that was tracked except that directive. *)
Theorem cancellation_reaches_router_in_order r p :
  (∀ new_id, new_id ≠ m_dialogRequestId p →
     events (processingLoop_pass r) (state_after (setDialogRequestId new_id) p)
     = call_cancelDirective <$> tracked p) ∧
  (∀ id description, slot_holds id p →
     events (processingLoop_pass r) (state_after (onHandlingFailed id description) p)
     = call_cancelDirective <$> (m_cancelingQueue p ++ m_handlingQueue p)) ∧
  (∀ id description i q,
     ¬ slot_holds id p → first_removed id i (m_handlingQueue p) q →
     events (processingLoop_pass r) (state_after (onHandlingFailed id description) p)
     = call_cancelDirective <$>
         (m_cancelingQueue p ++ q ++ option_list (m_directiveBeingPreHandled p))).
Proof.
  split_and!.
  - intros new_id Hne.
    assert (state_after (setDialogRequestId new_id) p
            = canceled new_id (m_isShuttingDown p) p) as ->.
    { unfold state_after. rewrite setDialogRequestId_run, bool_decide_eq_false_2 by done.
      unfold canceled, state_after. by rewrite queueAll_run. }
    apply pass_after_canceled.
  - intros id description Hs%isBeingPreHandled_true.
    rewrite onHandlingFailed_run, Hs.
    rewrite (canceled_keeps (with_directiveBeingPreHandled None p)), pass_after_canceled.
    unfold tracked. simpl. by rewrite app_nil_r.
  - intros id description i q Hs%isBeingPreHandled_false [Hfind ->]%first_removed_find.
    rewrite onHandlingFailed_run, Hs, Hfind.
    rewrite canceled_keeps, pass_after_canceled.
    unfold tracked, state_after. by rewrite removeFromHandlingQueueLocked_run, Hfind.
Qed.

Lemma cancellation_reaches_router_in_order_witness :
  events (processingLoop_pass accepting) (state_after (setDialogRequestId "D2") busy)
  = [call_cancelDirective M1; call_cancelDirective M2; call_cancelDirective M3] ∧
  events (processingLoop_pass accepting) (state_after (onHandlingFailed "M1" "x") busy)
  = [call_cancelDirective M2; call_cancelDirective M3].
Proof.
  destruct (cancellation_reaches_router_in_order accepting busy) as (Hd & _ & Hf).
  split.
  - apply Hd. discriminate.
  - apply (Hf "M1" "x" 0%nat [M2]); [by apply busy_slot_not_M|].
    exists [], M1, [M2]. by split_and!.
Defined.
